(** * sktm: the ingestion / filter / submit / reconcile loop of [watcher]

    A shallow embedding of [sktm/__init__.py] (class [watcher]) and the
    properties of its control loop.

    The collaborators of the class (the persistent store [sktm.db], the CI
    backend [sktm.jenkins], the Patchwork clients [sktm.patchwork] and the
    filter subprocess) are not part of the embedded file.  Their answers are
    the fields of a record [Env]; every call the methods make on them is
    appended, in program order, to the [trace] of the state, so that
    ordering properties are statements about that trace.

    The source is Python 2 code: [max] accepts [None] (which is smaller than
    every other value), and [\d] in a [str] pattern is [[0-9]].  The
    [logging] calls have no part in the state and are left out, as are
    [cleanup], which only logs, and [wait_for_pending], which repeats
    [check_pending] with a sleep in between. *)

From Stdlib Require Import ZArith List String Ascii Bool Lia.
Import ListNotations.
Local Open Scope string_scope.
Local Open Scope list_scope.

(** ** Python values *)

(** The values that travel through a Patchwork patch record. *)
#[warnings="-register-all"]
Inductive pyval : Type :=
| PyNone
| PyInt (n : Z)
| PyStr (s : string)
| PyDict (d : list (string * pyval)).

(** Exceptions raised by the methods.  The constructors of the first group
    are the [raise Exception(...)] statements of the source, with the
    values formatted into their messages; the second group are the
    exceptions of the Python runtime the embedded expressions can raise. *)
Inductive Exn : Type :=
| NeverTested (baseurl pname : string)
| FilterFailed (cmd : string)
| FilterSignal (cmd : string) (signal : Z)
| FilterInvalidStatus (cmd : string) (status : Z)
| MalformedPatchUrl (patch_url : string)
| NoStableBaseline (baserepo : option string)
| UnknownJobType (pjt : Z)
| AttributeError
| TypeError
| ValueError.

Inductive Res (A : Type) : Type :=
| Ok (a : A)
| Raise (e : Exn).
Arguments Ok {A} a.
Arguments Raise {A} e.

(** ** Data model *)

(** Modelled from the spec: [sktm.misc.JobType] is declared outside the
    embedded file; the spec gives [job_type] in {BASELINE, PATCHWORK}.  A
    third constructor stands for any other value found in the first slot of
    an in-flight tuple, which the source rejects at run time. *)
Inductive JobType : Type :=
| BASELINE
| PATCHWORK
| OtherJob (n : Z).

(** Modelled from the spec: [sktm.misc.TestResult] is declared outside the
    embedded file; the spec gives [get_result] in {SUCCESS, FAILURE,
    ERROR}. *)
Inductive TestResult : Type :=
| SUCCESS
| FAILURE
| ERROR.

(** An element of [self.pj]: the 3-tuple (build type, build number,
    Patchwork interface).  The interface is an element of [self.pw]; it is
    named by its position in that list, which only ever grows, and [None]
    for a baseline job. *)
Record Job : Type := mkJob {
  job_type : JobType;
  build_id : Z;
  job_pw : option nat
}.

(** Modelled from the spec: [sktm.patchwork.SeriesSummary] is declared
    outside the embedded file.  The fields are the attributes and accessor
    results the embedded methods read: the cover letter (by its mbox URL),
    the mbox URLs and URLs of the patches in order, the (id, date) pairs of
    [get_patch_info_list], message id, subject and e-mail addresses. *)
Record SeriesSummary : Type := mkSeries {
  cover_letter : option string;
  patch_mbox_url_list : list string;
  patch_url_list : list string;
  patch_info_list : list (Z * string);
  message_id : string;
  subject : string;
  email_addr_set : list string
}.

(** The patch info tuple
    (patch_id, patch_name, patch_url, baseurl, project_id, patch_date). *)
Record PatchInfo : Type := mkPatchInfo {
  pi_patch_id : Z;
  pi_patch_name : pyval;
  pi_patch_url : string;
  pi_baseurl : string;
  pi_project_id : Z;
  pi_patch_date : string
}.

(** The two Patchwork interface classes. *)
Inductive PwKind : Type :=
| PatchworkV1Project
| PatchworkV2Project.

(** A starting cursor: the id of the last processed patch (XMLRPC
    variant) or a timestamp (REST variant). *)
Inductive Cursor : Type :=
| LastPatch (patch_id : Z)
| Since (date : string).

(** An element of [self.pw]: the attributes of the interface object the
    methods read or assign.  [pw_cursor] is the attribute [lastpatch] of
    the XMLRPC variant and [since] of the REST variant. *)
Record Project : Type := mkProject {
  pw_kind : PwKind;
  pw_baseurl : string;
  pw_pname : string;
  pw_project_id : Z;
  pw_cursor : option Cursor;
  pw_apikey : option string;
  pw_skip : list string
}.

(** The arguments of one [self.jk.build(...)] call. *)
Record BuildArgs : Type := mkBuildArgs {
  b_baserepo : option string;
  b_ref : option string;
  b_baseconfig : option string;
  b_message_id : option string;
  b_subject : option string;
  b_emails : option (list string);
  b_patch_url_list : option (list string);
  b_makeopts : option string
}.

(** ** Calls on the collaborators *)

Inductive Event : Type :=
(* the filter subprocess *)
| EvFilter (argv : list string) (status : Z)
(* persistent store, reads *)
| EvGetStable (baserepo : option string)
| EvGetLastChecked (baseurl : string) (project_id : Z)
| EvGetLastPending (baseurl : string) (project_id : Z)
| EvGetLastCheckedDate (baseurl : string) (project_id : Z)
| EvGetLastPendingDate (baseurl : string) (project_id : Z)
| EvGetExpiredPending (baseurl : string) (project_id : Z) (age : Z)
(* persistent store, mutations *)
| EvCommitSeries (patches : list PatchInfo)
| EvSetPatchsetPending (baseurl : string) (project_id : Z)
    (patches : list (Z * string))
| EvUpdateBaseline (baserepo : option string) (basehash basedate : string)
    (bres : TestResult) (bid : Z)
| EvCommitTested (patches : list PatchInfo)
(* Patchwork interface *)
| EvGetNewPatchsets (cpw : nat)
| EvGetPatchsets (cpw : nat) (patches : list Z)
| EvGetPatchById (cpw : nat) (patch_id : Z)
(* CI backend *)
| EvBuild (args : BuildArgs) (bid : Z)
| EvIsBuildComplete (bid : Z) (complete : bool)
| EvGetResult (bid : Z)
| EvGetResultUrl (bid : Z)
| EvGetBaseHash (bid : Z)
| EvGetBaseCommitdate (bid : Z)
| EvGetPatchUrlList (bid : Z)
(* not a call: the value of [self.pj] after each of its mutations *)
| InFlight (pj : list Job).

(** The answers of the collaborators.  [jk_build_id n] is the build number
    returned by the [n]-th [build] call made on the backend (counting from
    0); the other fields answer by argument. *)
Record Env : Type := mkEnv {
  subprocess_call : list string -> Z;
  db_get_stable : option string -> option string;
  db_get_last_checked_patch : string -> Z -> option Z;
  db_get_last_pending_patch : string -> Z -> option Z;
  db_get_last_checked_patch_date : string -> Z -> option string;
  db_get_last_pending_patch_date : string -> Z -> option string;
  db_get_expired_pending_patches : string -> Z -> Z -> list Z;
  pw_resolve_project_id : string -> string -> Z;
  pw_get_new_patchsets : nat -> list SeriesSummary;
  pw_get_patchsets : nat -> list Z -> list SeriesSummary;
  pw_get_patch_by_id : nat -> Z -> pyval;
  jk_build_id : nat -> Z;
  jk_is_build_complete : Z -> bool;
  jk_get_result : Z -> TestResult;
  jk_get_result_url : Z -> string;
  jk_get_base_hash : Z -> string;
  jk_get_base_commitdate : Z -> string;
  jk_get_patch_url_list : Z -> list string
}.

(** ** The state of a [watcher] and its world *)

Record State : Type := mkState {
  patch_filter : option string;
  makeopts : option string;
  pj : list Job;
  pw : list Project;
  baserepo : option string;
  baseref : option string;
  cfgurl : option string;
  submitted : nat;       (* number of [build] calls made so far *)
  trace : list Event     (* calls made so far, oldest first *)
}.

Definition set_pj (l : list Job) (st : State) : State :=
  mkState (patch_filter st) (makeopts st) l (pw st) (baserepo st)
          (baseref st) (cfgurl st) (submitted st)
          (trace st ++ [InFlight l]).

Definition set_pw (l : list Project) (st : State) : State :=
  mkState (patch_filter st) (makeopts st) (pj st) l (baserepo st)
          (baseref st) (cfgurl st) (submitted st) (trace st).

Definition log_all (evs : list Event) (st : State) : State :=
  mkState (patch_filter st) (makeopts st) (pj st) (pw st) (baserepo st)
          (baseref st) (cfgurl st) (submitted st) (trace st ++ evs).

Definition log (e : Event) (st : State) : State := log_all [e] st.

Definition count_build (st : State) : State :=
  mkState (patch_filter st) (makeopts st) (pj st) (pw st) (baserepo st)
          (baseref st) (cfgurl st) (S (submitted st)) (trace st).

(** [watcher.__init__]: empty [pj] and [pw], no baseline parameters. *)
Definition init (patch_filter makeopts : option string) : State :=
  mkState patch_filter makeopts [] [] None None None 0 [].

(** [watcher.set_baseline] *)
Definition set_baseline (repo : option string) (ref cfgurl : option string)
    (st : State) : State :=
  mkState (patch_filter st) (makeopts st) (pj st) (pw st) repo ref cfgurl
          (submitted st) (trace st).

(** ** A state and exception monad

    A method runs on a state and ends either normally or with an
    exception; the state it leaves behind is kept in both cases, as the
    mutations a Python method made before raising are. *)

Definition M (A : Type) : Type := State -> Res A * State.

Definition ret {A} (a : A) : M A := fun st => (Ok a, st).

Definition raise {A} (e : Exn) : M A := fun st => (Raise e, st).

Definition bind {A B} (m : M A) (f : A -> M B) : M B :=
  fun st =>
    match m st with
    | (Ok a, st') => f a st'
    | (Raise e, st') => (Raise e, st')
    end.

Definition lift {A} (r : Res A) : M A := fun st => (r, st).

Definition get {A} (f : State -> A) : M A := fun st => (Ok (f st), st).

Definition modify (f : State -> State) : M unit := fun st => (Ok tt, f st).

Declare Scope monad_scope.
Delimit Scope monad_scope with monad.
Notation "x <- m ;; k" := (bind m (fun x => k))
  (at level 61, m at next level, right associativity) : monad_scope.
Notation "' pat <- m ;; k" :=
  (bind m (fun x => match x with pat => k end))
  (at level 61, pat pattern, m at next level, right associativity)
  : monad_scope.
Notation "m ;; k" := (bind m (fun _ => k))
  (at level 61, right associativity) : monad_scope.
Local Open Scope monad_scope.

(** [for x in l: body(x)] over a list that the body does not mutate. *)
Fixpoint for_each {A} (l : list A) (body : A -> M unit) : M unit :=
  match l with
  | [] => ret tt
  | x :: l' => body x ;; for_each l' body
  end.

(** [[f(x) for x in l]], built with [append] in a loop. *)
Fixpoint map_m {A B} (f : A -> M B) (l : list A) : M (list B) :=
  match l with
  | [] => ret []
  | x :: l' => y <- f x ;; ys <- map_m f l' ;; ret (y :: ys)
  end.


(** ** Python helpers *)

(** Truth value of [self.patch_filter]: [None] and the empty string are
    false. *)
Definition filter_program (st : State) : option string :=
  match patch_filter st with
  | Some (String c s) => Some (String c s)
  | _ => None
  end.

(** [max(a, b)] of Python 2 on two values that are [None] or of one type
    ordered by [ltb]: [None] is smaller than everything, and [b] is chosen
    only when it is strictly greater than [a]. *)
Definition py_max {A} (ltb : A -> A -> bool) (a b : option A) : option A :=
  match a, b with
  | None, None => None
  | None, Some y => Some y
  | Some x, None => Some x
  | Some x, Some y => if ltb x y then Some y else Some x
  end.

Definition is_digit (c : ascii) : bool :=
  (48 <=? nat_of_ascii c)%nat && (nat_of_ascii c <=? 57)%nat.

Definition is_newline (c : ascii) : bool := (nat_of_ascii c =? 10)%nat.

Definition is_space (c : ascii) : bool :=
  let n := nat_of_ascii c in
  ((9 <=? n)%nat && (n <=? 13)%nat) || (n =? 32)%nat.

Definition digit_value (c : ascii) : Z := Z.of_nat (nat_of_ascii c) - 48.

(** Value of a string of decimal digits, most significant first. *)
Definition int_of_digits (ds : list ascii) : Z :=
  fold_left (fun acc c => 10 * acc + digit_value c)%Z ds 0%Z.

Fixpoint lstrip (l : list ascii) : list ascii :=
  match l with
  | c :: l' => if is_space c then lstrip l' else l
  | [] => []
  end.

(** [int(s)] for a [str]: surrounding white space, an optional sign,
    decimal digits. *)
Definition int_of_str (s : string) : Res Z :=
  let l := rev (lstrip (rev (lstrip (list_ascii_of_string s)))) in
  let '(neg, ds) :=
    match l with
    | c :: ds =>
        if Ascii.eqb c "-" then (true, ds)
        else if Ascii.eqb c "+" then (false, ds)
        else (false, l)
    | [] => (false, l)
    end in
  match ds with
  | [] => Raise ValueError
  | _ :: _ =>
      if forallb is_digit ds
      then Ok (if neg then - int_of_digits ds else int_of_digits ds)%Z
      else Raise ValueError
  end.

(** [int(v)] *)
Definition py_int (v : pyval) : Res Z :=
  match v with
  | PyInt n => Ok n
  | PyStr s => int_of_str s
  | PyNone | PyDict _ => Raise TypeError
  end.

Fixpoint dict_get (d : list (string * pyval)) (key : string) : pyval :=
  match d with
  | [] => PyNone
  | (k, v) :: d' => if String.eqb k key then v else dict_get d' key
  end.

(** [v.get(key)]: only a dict has the method. *)
Definition py_get (v : pyval) (key : string) : Res pyval :=
  match v with
  | PyDict d => Ok (dict_get d key)
  | _ => Raise AttributeError
  end.

Fixpoint replace_char (old new : ascii) (s : string) : string :=
  match s with
  | EmptyString => EmptyString
  | String c s' =>
      String (if Ascii.eqb c old then new else c) (replace_char old new s')
  end.

(** [v.replace(' ', 'T')]: only a string has the method. *)
Definition py_replace_space_T (v : pyval) : Res string :=
  match v with
  | PyStr s => Ok (replace_char " " "T" s)
  | _ => Raise AttributeError
  end.

(** Equality of in-flight tuples, component by component. *)
Definition JobType_eq_dec (a b : JobType) : {a = b} + {a <> b}.
Proof. decide equality. apply Z.eq_dec. Defined.

Definition Job_eq_dec (a b : Job) : {a = b} + {a <> b}.
Proof.
  decide equality.
  - decide equality. apply Nat.eq_dec.
  - apply Z.eq_dec.
  - apply JobType_eq_dec.
Defined.

(** [l.remove(x)]: drops the first element equal to [x]; [None], for
    [ValueError], when there is none. *)
Fixpoint list_remove (x : Job) (l : list Job) : option (list Job) :=
  match l with
  | [] => None
  | y :: l' =>
      if Job_eq_dec y x then Some l'
      else option_map (cons y) (list_remove x l')
  end.

(** *** The pattern of a patch URL

    The pattern is: group 1 [.*], the literal [/patch/], group 2 [\d+],
    then [$].  [re.match] anchors the pattern at the start of the string.  [.]
    matches every character except a newline, [\d] the digits 0 to 9, and
    [$] the end of the string or the position just before a newline that is
    the last character of the string.  [re_patch_url u base digits] says
    that the pattern matches [u] with [base] and [digits] as its groups. *)
Definition re_patch_url (u base digits : string) : Prop :=
  (u = (base ++ "/patch/" ++ digits)%string \/
   u = (base ++ "/patch/" ++ digits ++ String "010" EmptyString)%string) /\
  digits <> "" /\
  forallb is_digit (list_ascii_of_string digits) = true /\
  existsb is_newline (list_ascii_of_string base) = false.

Fixpoint span_digits (l : list ascii) : list ascii * list ascii :=
  match l with
  | c :: l' =>
      if is_digit c
      then let '(ds, rest) := span_digits l' in (c :: ds, rest)
      else ([], l)
  | [] => ([], [])
  end.

Fixpoint strip_prefix (p l : list ascii) : option (list ascii) :=
  match p, l with
  | [], _ => Some l
  | a :: p', b :: l' => if Ascii.eqb a b then strip_prefix p' l' else None
  | _ :: _, [] => None
  end.

(** The matcher, working from the end of the string: an optional final
    newline, the digits, the literal [/patch/], and a newline-free rest.
    The result is (group 1, group 2). *)
Definition re_match_patch_url (u : string) : option (string * string) :=
  let r := rev (list_ascii_of_string u) in
  let r := match r with
           | c :: r' => if is_newline c then r' else r
           | [] => r
           end in
  let '(ds, rest) := span_digits r in
  match ds with
  | [] => None
  | _ :: _ =>
      match strip_prefix (rev (list_ascii_of_string "/patch/")) rest with
      | Some b =>
          if existsb is_newline b then None
          else Some (string_of_list_ascii (rev b),
                     string_of_list_ascii (rev ds))
      | None => None
      end
  end.

(** ** The methods of [watcher] *)

Section Methods.

Variable E : Env.

(** *** Calls on the collaborators, each leaving its event *)

Definition call {A} (e : Event) (a : A) : M A :=
  fun st => (Ok a, log e st).

Definition subprocess_call_m (argv : list string) : M Z :=
  let status := subprocess_call E argv in
  call (EvFilter argv status) status.

Definition db_get_stable_m (repo : option string) : M (option string) :=
  call (EvGetStable repo) (db_get_stable E repo).

Definition db_get_expired_pending_patches_m (baseurl : string)
    (project_id age : Z) : M (list Z) :=
  call (EvGetExpiredPending baseurl project_id age)
       (db_get_expired_pending_patches E baseurl project_id age).

Definition db_commit_series_m (patches : list PatchInfo) : M unit :=
  call (EvCommitSeries patches) tt.

Definition db_set_patchset_pending_m (baseurl : string) (project_id : Z)
    (patches : list (Z * string)) : M unit :=
  call (EvSetPatchsetPending baseurl project_id patches) tt.

Definition db_update_baseline_m (repo : option string)
    (basehash basedate : string) (bres : TestResult) (bid : Z) : M unit :=
  call (EvUpdateBaseline repo basehash basedate bres bid) tt.

Definition db_commit_tested_m (patches : list PatchInfo) : M unit :=
  call (EvCommitTested patches) tt.

Definition pw_get_new_patchsets_m (cpw : nat) : M (list SeriesSummary) :=
  call (EvGetNewPatchsets cpw) (pw_get_new_patchsets E cpw).

Definition pw_get_patchsets_m (cpw : nat) (patches : list Z)
  : M (list SeriesSummary) :=
  call (EvGetPatchsets cpw patches) (pw_get_patchsets E cpw patches).

Definition pw_get_patch_by_id_m (cpw : nat) (patch_id : Z) : M pyval :=
  call (EvGetPatchById cpw patch_id) (pw_get_patch_by_id E cpw patch_id).

Definition jk_build_m (args : BuildArgs) : M Z :=
  fun st =>
    let bid := jk_build_id E (submitted st) in
    (Ok bid, count_build (log (EvBuild args bid) st)).

Definition jk_is_build_complete_m (bid : Z) : M bool :=
  let c := jk_is_build_complete E bid in
  call (EvIsBuildComplete bid c) c.

Definition jk_get_result_m (bid : Z) : M TestResult :=
  call (EvGetResult bid) (jk_get_result E bid).

Definition jk_get_result_url_m (bid : Z) : M string :=
  call (EvGetResultUrl bid) (jk_get_result_url E bid).

Definition jk_get_base_hash_m (bid : Z) : M string :=
  call (EvGetBaseHash bid) (jk_get_base_hash E bid).

Definition jk_get_base_commitdate_m (bid : Z) : M string :=
  call (EvGetBaseCommitdate bid) (jk_get_base_commitdate E bid).

Definition jk_get_patch_url_list_m (bid : Z) : M (list string) :=
  call (EvGetPatchUrlList bid) (jk_get_patch_url_list E bid).

(** [self.pj.append(job)] *)
Definition pj_append (job : Job) : M unit :=
  fun st => (Ok tt, set_pj (pj st ++ [job]) st).

(** [self.pj.remove(job)] *)
Definition pj_remove (job : Job) : M unit :=
  fun st =>
    match list_remove job (pj st) with
    | Some l => (Ok tt, set_pj l st)
    | None => (Raise ValueError, st)
    end.

(** *** [add_pw] *)

Definition Z_cursor_ltb (a b : Z) : bool := (a <? b)%Z.

Definition add_pw (baseurl pname : string) (lpatch : option Cursor)
    (restapi : bool) (apikey : option string) (skip : list string)
  : M unit :=
  let project_id := pw_resolve_project_id E baseurl pname in
  if restapi then
    let pw0 := mkProject PatchworkV2Project baseurl pname project_id
                         lpatch apikey skip in
    pw1 <-
      match lpatch with
      | None =>
          lcdate <- call (EvGetLastCheckedDate baseurl project_id)
                      (db_get_last_checked_patch_date E baseurl project_id) ;;
          lpdate <- call (EvGetLastPendingDate baseurl project_id)
                      (db_get_last_pending_patch_date E baseurl project_id) ;;
          match py_max String.ltb lcdate lpdate with
          | None => raise (NeverTested baseurl pname)
          | Some since =>
              ret (mkProject PatchworkV2Project baseurl pname project_id
                             (Some (Since since)) apikey skip)
          end
      | Some _ => ret pw0
      end ;;
    modify (fun st => set_pw (pw st ++ [pw1]) st)
  else
    let pw0 := mkProject PatchworkV1Project baseurl pname project_id
                         lpatch None skip in
    pw1 <-
      match lpatch with
      | None =>
          lcpatch <- call (EvGetLastChecked baseurl project_id)
                       (db_get_last_checked_patch E baseurl project_id) ;;
          lppatch <- call (EvGetLastPending baseurl project_id)
                       (db_get_last_pending_patch E baseurl project_id) ;;
          match py_max Z_cursor_ltb lcpatch lppatch with
          | None => raise (NeverTested baseurl pname)
          | Some lpatch' =>
              ret (mkProject PatchworkV1Project baseurl pname project_id
                             (Some (LastPatch lpatch')) None skip)
          end
      | Some _ => ret pw0
      end ;;
    modify (fun st => set_pw (pw st ++ [pw1]) st).

(** *** [check_baseline] *)

Definition check_baseline : M unit :=
  repo <- get baserepo ;;
  ref <- get baseref ;;
  cfg <- get cfgurl ;;
  mk <- get makeopts ;;
  bid <- jk_build_m (mkBuildArgs repo ref cfg None None None None mk) ;;
  pj_append (mkJob BASELINE bid None).

(** *** [filter_patchsets] *)

Definition filter_argv (prog : string) (series_summary : SeriesSummary)
  : list string :=
  [prog]
  ++ match cover_letter series_summary with
     | Some mbox_url => ["--cover"; mbox_url]
     | None => []
     end
  ++ patch_mbox_url_list series_summary.

Definition filter_cmd (prog : string) (series_summary : SeriesSummary)
  : string :=
  String.concat " " (filter_argv prog series_summary).

(** The loop over [series_summary_list], with the two result lists as
    accumulators. *)
Fixpoint filter_loop (prog : string) (l : list SeriesSummary)
    (ready dropped : list SeriesSummary)
  : M (list SeriesSummary * list SeriesSummary) :=
  match l with
  | [] => ret (ready, dropped)
  | series_summary :: l' =>
      let argv := filter_argv prog series_summary in
      let cmd := String.concat " " argv in
      status <- subprocess_call_m argv ;;
      if (status =? 0)%Z then
        filter_loop prog l' (ready ++ [series_summary]) dropped
      else if (status =? 1)%Z then
        filter_loop prog l' ready (dropped ++ [series_summary])
      else if (status =? 127)%Z then
        raise (FilterFailed cmd)
      else if (status <? 0)%Z then
        raise (FilterSignal cmd (- status))
      else
        raise (FilterInvalidStatus cmd status)
  end.

Definition filter_patchsets (series_summary_list : list SeriesSummary)
  : M (list SeriesSummary * list SeriesSummary) :=
  prog <- get filter_program ;;
  match prog with
  | Some prog => filter_loop prog series_summary_list [] []
  | None => ret ([] ++ series_summary_list, [])
  end.

(** *** [get_patch_info_from_url] *)

(** The project id of a patch record: under a nested [project] field for
    the REST variant, a flat field for the XMLRPC variant. *)
Definition patch_project_id (kind : PwKind) (patch : pyval) : Res Z :=
  match kind with
  | PatchworkV2Project =>
      match py_get patch "project" with
      | Ok p =>
          match py_get p "id" with
          | Ok i => py_int i
          | Raise e => Raise e
          end
      | Raise e => Raise e
      end
  | PatchworkV1Project =>
      match py_get patch "project_id" with
      | Ok i => py_int i
      | Raise e => Raise e
      end
  end.

Definition get_patch_info_from_url (interface : option nat)
    (patch_url : string) : M PatchInfo :=
  match re_match_patch_url patch_url with
  | None => raise (MalformedPatchUrl patch_url)
  | Some (baseurl, digits) =>
      let patch_id := int_of_digits (list_ascii_of_string digits) in
      projects <- get pw ;;
      match interface with
      | None => raise AttributeError
      | Some cpw =>
          match nth_error projects cpw with
          | None => raise AttributeError
          | Some project =>
              patch <- pw_get_patch_by_id_m cpw patch_id ;;
              name <- lift (py_get patch "name") ;;
              project_id <- lift (patch_project_id (pw_kind project) patch) ;;
              date <- lift (py_get patch "date") ;;
              date' <- lift (py_replace_space_T date) ;;
              ret (mkPatchInfo patch_id name patch_url baseurl project_id
                               date')
          end
      end
  end.

(** *** [check_patchwork] *)

(** The part of the loop body that handles one dropped series. *)
Definition save_dropped (cpw : nat) (series : SeriesSummary) : M unit :=
  patches <- map_m (get_patch_info_from_url (Some cpw))
                   (patch_url_list series) ;;
  db_commit_series_m patches.

(** The part of the loop body that submits one series. *)
Definition submit_series (cpw : nat) (project : Project)
    (stablecommit : string) (series : SeriesSummary) : M unit :=
  let url_list := patch_url_list series in
  repo <- get baserepo ;;
  cfg <- get cfgurl ;;
  mk <- get makeopts ;;
  bid <- jk_build_m (mkBuildArgs repo (Some stablecommit) cfg
                                 (Some (message_id series))
                                 (Some (subject series))
                                 (Some (email_addr_set series))
                                 (Some url_list) mk) ;;
  pj_append (mkJob PATCHWORK bid (Some cpw)) ;;
  db_set_patchset_pending_m (pw_baseurl project) (pw_project_id project)
                            (patch_info_list series).

(** The body of the loop over [self.pw], for the interface at position
    [cpw]. *)
Definition check_patchwork_project (stablecommit : string)
    (cpw : nat) (project : Project) : M unit :=
  new_series <- pw_get_new_patchsets_m cpw ;;
  '(series_ready, series_dropped) <- filter_patchsets new_series ;;
  for_each series_dropped (save_dropped cpw) ;;
  let series_list := [] ++ series_ready in
  expired <- db_get_expired_pending_patches_m
               (pw_baseurl project) (pw_project_id project) 43200 ;;
  retry <- pw_get_patchsets_m cpw expired ;;
  let series_list := series_list ++ retry in
  for_each series_list (submit_series cpw project stablecommit).

(** The elements of a list with their positions. *)
Fixpoint enumerate_from {A} (n : nat) (l : list A) : list (nat * A) :=
  match l with
  | [] => []
  | x :: l' => (n, x) :: enumerate_from (S n) l'
  end.

Definition check_patchwork : M unit :=
  repo <- get baserepo ;;
  stablecommit <- db_get_stable_m repo ;;
  match stablecommit with
  | Some (String c s) =>
      projects <- get pw ;;
      for_each (enumerate_from 0 projects)
               (fun '(cpw, project) =>
                  check_patchwork_project (String c s) cpw project)
  | _ => raise (NoStableBaseline repo)
  end.

(** *** [check_pending] *)

(** The end of the loop body, after the entry has been removed: the
    result of the build is merged into the store. *)
Definition merge_result (job : Job) (bres : TestResult)
    (basehash basedate : string) : M unit :=
  let pjt := job_type job in
  let bid := build_id job in
  let cpw := job_pw job in
  match bres with
  | ERROR => ret tt
  | _ =>
      match pjt with
      | BASELINE =>
          repo <- get baserepo ;;
          db_update_baseline_m repo basehash basedate bres bid
      | PATCHWORK =>
          patch_url_list <- jk_get_patch_url_list_m bid ;;
          patches <- map_m (get_patch_info_from_url cpw) patch_url_list ;;
          db_commit_tested_m patches
      | OtherJob n => raise (UnknownJobType n)
      end
  end.

(** The body of the loop, for the tuple [(pjt, bid, cpw)] the iterator
    yielded. *)
Definition check_pending_body (job : Job) : M unit :=
  let bid := build_id job in
  complete <- jk_is_build_complete_m bid ;;
  if complete then
    bres <- jk_get_result_m bid ;;
    rurl <- jk_get_result_url_m bid ;;
    basehash <- jk_get_base_hash_m bid ;;
    basedate <- jk_get_base_commitdate_m bid ;;
    pj_remove job ;;
    merge_result job bres basehash basedate
  else ret tt.

(** The [for] loop over [self.pj], which the body mutates.  The list
    iterator keeps a position [i]: each round it stops if [i] is beyond the
    end of the list as it is then, and otherwise yields the element at [i]
    and moves to [i + 1].  [fuel] bounds the number of rounds; the result
    is [None] when it runs out. *)
Fixpoint check_pending_loop (fuel i : nat) (st : State)
  : option (Res unit * State) :=
  match nth_error (pj st) i with
  | None => Some (Ok tt, st)
  | Some job =>
      match fuel with
      | O => None
      | S fuel' =>
          match check_pending_body job st with
          | (Ok _, st') => check_pending_loop fuel' (S i) st'
          | (Raise e, st') => Some (Raise e, st')
          end
      end
  end.

(** One pass.  As many rounds as [self.pj] has elements at the start are
    enough (lemma [check_pending_loop_total]). *)
Definition check_pending (st : State) : option (Res unit * State) :=
  check_pending_loop (List.length (pj st)) 0 st.

End Methods.

(** *** [wait_for_pending]

    [check_pending] once, then again after each sleep for as long as
    [self.pj] is not empty.  The sleep only lets time pass, in which the
    answers of the backend change: [Es k] is the environment of the
    [k]-th pass.  [fuel] bounds the number of rounds of the [while] loop;
    the result is [None] when it runs out. *)
Fixpoint wait_for_pending_loop (Es : nat -> Env) (fuel k : nat) (st : State)
  : option (Res unit * State) :=
  match pj st with
  | [] => Some (Ok tt, st)
  | _ :: _ =>
      match fuel with
      | O => None
      | S fuel' =>
          match check_pending (Es k) st with
          | Some (Ok _, st') => wait_for_pending_loop Es fuel' (S k) st'
          | Some (Raise e, st') => Some (Raise e, st')
          | None => None
          end
      end
  end.

Definition wait_for_pending (Es : nat -> Env) (fuel : nat) (st : State)
  : option (Res unit * State) :=
  match check_pending (Es 0%nat) st with
  | Some (Ok _, st') => wait_for_pending_loop Es fuel 1 st'
  | Some (Raise e, st') => Some (Raise e, st')
  | None => None
  end.

(** ** Vocabulary of the statements *)

(** Exit status of the filter program [prog] on a series. *)
Definition filter_status (E : Env) (prog : string) (s : SeriesSummary) : Z :=
  subprocess_call E (filter_argv prog s).

Definition filter_event (E : Env) (prog : string) (s : SeriesSummary)
  : Event :=
  EvFilter (filter_argv prog s) (filter_status E prog s).

Definition status_is (E : Env) (prog : string) (n : Z) (s : SeriesSummary)
  : bool :=
  (filter_status E prog s =? n)%Z.

(** The shape of a patch URL: a base, the literal [/patch/], and a
    non-empty string of decimal digits. *)
Definition patch_url_shape (u base digits : string) : Prop :=
  u = (base ++ "/patch/" ++ digits)%string /\
  digits <> "" /\
  forallb is_digit (list_ascii_of_string digits) = true.

(** The state after a run that left the in-flight list [l], brought the
    number of submissions to [n] and made the calls [evs]. *)
Definition evolve (st : State) (l : list Job) (n : nat) (evs : list Event)
  : State :=
  mkState (patch_filter st) (makeopts st) l (pw st) (baserepo st)
          (baseref st) (cfgurl st) n (trace st ++ evs).

(** The calls that change the persistent store. *)
Definition is_store_mutation (e : Event) : bool :=
  match e with
  | EvCommitSeries _ | EvSetPatchsetPending _ _ _
  | EvUpdateBaseline _ _ _ _ _ | EvCommitTested _ => true
  | _ => false
  end.

Definition is_get_patch (e : Event) : bool :=
  match e with EvGetPatchById _ _ => true | _ => false end.

Definition is_filter (e : Event) : bool :=
  match e with EvFilter _ _ => true | _ => false end.

(** The calls of the drop phase of a batch: record lookups and series
    commits. *)
Definition is_drop_phase (e : Event) : bool :=
  match e with
  | EvGetPatchById _ _ | EvCommitSeries _ => true
  | _ => false
  end.

(** The arguments [check_patchwork] passes to [build] for a series. *)
Definition series_build_args (st : State) (stablecommit : string)
    (series : SeriesSummary) : BuildArgs :=
  mkBuildArgs (baserepo st) (Some stablecommit) (cfgurl st)
              (Some (message_id series)) (Some (subject series))
              (Some (email_addr_set series))
              (Some (patch_url_list series)) (makeopts st).

(** The in-flight entries made for the series [l], the first of which is
    the [n]-th submission. *)
Fixpoint submit_jobs (E : Env) (cpw : nat) (n : nat)
    (l : list SeriesSummary) : list Job :=
  match l with
  | [] => []
  | _ :: l' =>
      mkJob PATCHWORK (jk_build_id E n) (Some cpw)
      :: submit_jobs E cpw (S n) l'
  end.

(** The calls made to submit the series [l], starting from the in-flight
    list [pj0] and with [n] earlier submissions. *)
Fixpoint submit_events (E : Env) (st : State) (stablecommit : string)
    (cpw : nat) (project : Project) (n : nat) (pj0 : list Job)
    (l : list SeriesSummary) : list Event :=
  match l with
  | [] => []
  | series :: l' =>
      let bid := jk_build_id E n in
      let pj1 := pj0 ++ [mkJob PATCHWORK bid (Some cpw)] in
      EvBuild (series_build_args st stablecommit series) bid
      :: InFlight pj1
      :: EvSetPatchsetPending (pw_baseurl project) (pw_project_id project)
                              (patch_info_list series)
      :: submit_events E st stablecommit cpw project (S n) pj1 l'
  end.

(** The calls and in-flight changes of the submit phase of a batch. *)
Definition is_submit_phase (e : Event) : bool :=
  match e with
  | EvBuild _ _ | InFlight _ | EvSetPatchsetPending _ _ _ => true
  | _ => false
  end.

Definition not_submit_phase (e : Event) : bool := negb (is_submit_phase e).

(** The series the expired pending patches of a project are turned into. *)
Definition retry_series (E : Env) (cpw : nat) (project : Project)
  : list SeriesSummary :=
  pw_get_patchsets E cpw
    (db_get_expired_pending_patches E (pw_baseurl project)
                                    (pw_project_id project) 43200).

(** The build numbers of a list of in-flight entries. *)
Definition bids (l : list Job) : list Z := map build_id l.

(** The calls made on the backend between the observation that build [b]
    is complete and the removal of its entry. *)
Definition completion_reads (b : Z) : list Event :=
  [EvGetResult b; EvGetResultUrl b; EvGetBaseHash b; EvGetBaseCommitdate b].

(** Events that neither record a value of the in-flight list, nor a
    completion poll, nor a build request. *)
Definition is_quiet (e : Event) : bool :=
  match e with
  | InFlight _ | EvIsBuildComplete _ _ | EvBuild _ _ => false
  | _ => true
  end.

(** The steps by which the methods change the in-flight list, the
    submission count and the trace.  [ids n] is the build number of the
    [n]-th submission. *)
Inductive mstep (ids : nat -> Z) : State -> State -> Prop :=
| mstep_quiet st st' evs :
    pj st' = pj st ->
    submitted st' = submitted st ->
    trace st' = trace st ++ evs ->
    forallb is_quiet evs = true ->
    mstep ids st st'
| mstep_submit st st' args job :
    build_id job = ids (submitted st) ->
    pj st' = pj st ++ [job] ->
    submitted st' = S (submitted st) ->
    trace st' = trace st ++ [EvBuild args (build_id job);
                             InFlight (pj st ++ [job])] ->
    mstep ids st st'
| mstep_poll st st' job :
    In job (pj st) ->
    pj st' = pj st ->
    submitted st' = submitted st ->
    trace st' = trace st ++ [EvIsBuildComplete (build_id job) false] ->
    mstep ids st st'
| mstep_reap st st' job l :
    list_remove job (pj st) = Some l ->
    pj st' = l ->
    submitted st' = submitted st ->
    trace st' = trace st
                ++ EvIsBuildComplete (build_id job) true
                :: completion_reads (build_id job) ++ [InFlight l] ->
    mstep ids st st'.

Inductive msteps (ids : nat -> Z) : State -> State -> Prop :=
| msteps_refl st : msteps ids st st
| msteps_step st st' st'' :
    mstep ids st st' -> msteps ids st' st'' -> msteps ids st st''.

(** An environment whose backend numbers its builds by [ids]. *)
Definition numbers_builds (ids : nat -> Z) (E : Env) : Prop :=
  forall n, jk_build_id E n = ids n.

(** The states a watcher goes through: created by [init], then any
    sequence of method calls, each in an environment of its own. *)
Inductive reachable (ids : nat -> Z) : State -> Prop :=
| reach_init patch_filter makeopts :
    reachable ids (init patch_filter makeopts)
| reach_set_baseline st repo ref cfgurl :
    reachable ids st ->
    reachable ids (set_baseline repo ref cfgurl st)
| reach_add_pw st E baseurl pname lpatch restapi apikey skip :
    reachable ids st ->
    reachable ids
      (snd (add_pw E baseurl pname lpatch restapi apikey skip st))
| reach_check_baseline st E :
    reachable ids st ->
    numbers_builds ids E ->
    reachable ids (snd (check_baseline E st))
| reach_check_patchwork st E :
    reachable ids st ->
    numbers_builds ids E ->
    reachable ids (snd (check_patchwork E st))
| reach_check_pending st E r st' :
    reachable ids st ->
    check_pending E st = Some (r, st') ->
    reachable ids st'.

(** After the observation that build [b] is complete, [rest] starts with
    the reads of its result and the removal of its entry, and no later
    value of the in-flight list holds [b]. *)
Definition reaped (b : Z) (rest : list Event) : Prop :=
  exists l rest',
    rest = completion_reads b ++ InFlight l :: rest' /\
    forall l', In (InFlight l') (InFlight l :: rest') -> ~ In b (bids l').

Definition trace_reaps (tr : list Event) : Prop :=
  forall t1 b t2, tr = t1 ++ EvIsBuildComplete b true :: t2 -> reaped b t2.

Definition issued (ids : nat -> Z) (n : nat) (b : Z) : Prop :=
  exists k, (k < n)%nat /\ b = ids k.

(** The invariant of the in-flight list. *)
Record Inv (ids : nat -> Z) (st : State) : Prop := mkInv {
  inv_nodup : NoDup (bids (pj st));
  inv_issued : forall b, In b (bids (pj st)) -> issued ids (submitted st) b;
  inv_snapshots : forall l, In (InFlight l) (trace st) -> NoDup (bids l);
  inv_done : forall b, In (EvIsBuildComplete b true) (trace st) ->
                       ~ In b (bids (pj st));
  inv_polled : forall b c, In (EvIsBuildComplete b c) (trace st) ->
                           issued ids (submitted st) b;
  inv_reaps : trace_reaps (trace st)
}.

(** The state after the entry of a complete build has been removed. *)
Definition reaped_state (job : Job) (l : list Job) (st : State) : State :=
  evolve st l (submitted st)
         (EvIsBuildComplete (build_id job) true
          :: completion_reads (build_id job) ++ [InFlight l]).

(** The filter accepts a series: exit status 0 or 1. *)
Definition accepted (E : Env) (prog : string) (s : SeriesSummary) : Prop :=
  filter_status E prog s = 0%Z \/ filter_status E prog s = 1%Z.

(** [m] is the greater of the values present among [a] and [b]. *)
Definition is_max_of {A} (le : A -> A -> Prop) (a b : option A) (m : A)
  : Prop :=
  (Some m = a \/ Some m = b) /\
  (forall x, a = Some x -> le x m) /\
  (forall y, b = Some y -> le y m).

Definition string_le (a b : string) : Prop := String.leb a b = true.

(** The state a pass of [check_pending] leaves. *)
Definition after_pass (E : Env) (st : State) : State :=
  match check_pending E st with
  | Some (_, st') => st'
  | None => st
  end.

(** The in-flight list a pass makes of [l], when no round raises: an entry
    whose build is not complete stays; an entry whose build is complete
    goes, and the entry after it stays without being looked at, since the
    iterator has moved past it. *)
Fixpoint sweep (E : Env) (l : list Job) : list Job :=
  match l with
  | [] => []
  | job :: rest =>
      if jk_is_build_complete E (build_id job)
      then match rest with
           | [] => []
           | next :: rest' => next :: sweep E rest'
           end
      else job :: sweep E rest
  end.

(** The interfaces polled for new series, in the order of the calls. *)
Definition fetched (evs : list Event) : list nat :=
  flat_map (fun e => match e with
                     | EvGetNewPatchsets cpw => [cpw]
                     | _ => []
                     end) evs.

(** The arguments of the build requests, in the order of the calls. *)
Definition build_requests (evs : list Event) : list BuildArgs :=
  flat_map (fun e => match e with
                     | EvBuild args _ => [args]
                     | _ => []
                     end) evs.

(** An in-flight entry of a patch series build on one of the first [n]
    interfaces. *)
Definition series_job (n : nat) (job : Job) : Prop :=
  job_type job = PATCHWORK /\
  exists cpw, job_pw job = Some cpw /\ (cpw < n)%nat.

(** The number of calls that change the store. *)
Definition mutations (evs : list Event) : nat :=
  List.length (filter is_store_mutation evs).

(** [batches E stablecommit n l st st']: the batches of the interfaces
    [l], numbered from [n], run one after the other from the state [st];
    each of them ends normally, and the last one leaves the state [st']. *)
Inductive batches (E : Env) (stablecommit : string) :
    nat -> list Project -> State -> State -> Prop :=
| batches_nil (n : nat) (st : State) : batches E stablecommit n [] st st
| batches_cons (n : nat) (project : Project) (l : list Project)
      (st st1 st' : State) :
    check_patchwork_project E stablecommit n project st = (Ok tt, st1) ->
    batches E stablecommit (S n) l st1 st' ->
    batches E stablecommit n (project :: l) st st'.

(** ** Sample worlds

    The scenario of a project whose cursor is at patch 100 and whose
    tracker reports the series {101, 102}, which the filter accepts, and
    the series {103}, which it rejects with status 1. *)

Definition series_101_102 : SeriesSummary :=
  mkSeries None
           ["http://pw/patch/101/mbox"; "http://pw/patch/102/mbox"]
           ["http://pw/patch/101"; "http://pw/patch/102"]
           [(101%Z, "2018-03-01 10:00:00"); (102%Z, "2018-03-01 10:00:01")]
           "<20180301-1@example.org>" "[PATCH 0/2] net: fixes"
           ["dev@example.org"].

Definition series_103 : SeriesSummary :=
  mkSeries None
           ["http://pw/patch/103/mbox"]
           ["http://pw/patch/103"]
           [(103%Z, "2018-03-01 11:00:00")]
           "<20180301-2@example.org>" "[PATCH] doc: typo"
           ["doc@example.org"].

Definition sample_record : pyval :=
  PyDict [("name", PyStr "net: fix"); ("project_id", PyInt 1);
          ("date", PyStr "2018-03-01 10:00:00")].

(** Exit status 1 when the last argument is the mbox of patch 103, and
    [other] otherwise. *)
Definition sample_status (other : Z) (argv : list string) : Z :=
  if String.eqb (last argv "") "http://pw/patch/103/mbox" then 1%Z
  else other.

(** A world with the given completion of builds, filter status for the
    first series, stable commit, numbering of builds and result of every
    build. *)
Definition sample_env_with (complete : Z -> bool) (other : Z)
    (stable : option string) (ids : nat -> Z) (result : TestResult) : Env :=
  mkEnv (sample_status other)
        (fun _ => stable)
        (fun _ _ => Some 100%Z) (fun _ _ => None)
        (fun _ _ => None) (fun _ _ => None)
        (fun _ _ _ => [])
        (fun _ _ => 1%Z)
        (fun _ => [series_101_102; series_103])
        (fun _ _ => [])
        (fun _ _ => sample_record)
        ids
        complete
        (fun _ => result)
        (fun _ => "http://jenkins/job/sktm/1")
        (fun _ => "c0ffee")
        (fun _ => "2018-03-01")
        (fun _ => ["http://pw/patch/101"; "http://pw/patch/102"]).

(** The same, with every build complete. *)
Definition sample_env (other : Z) (stable : option string)
    (ids : nat -> Z) (result : TestResult) : Env :=
  sample_env_with (fun _ => true) other stable ids result.

Definition sample_project : Project :=
  mkProject PatchworkV1Project "http://pw" "netdev" 1
            (Some (LastPatch 100)) None [].

(** A watcher with a filter program, one tracked project and a baseline
    repository. *)
Definition sample_state : State :=
  mkState (Some "/usr/bin/series-filter") None [] [sample_project]
          (Some "git://git.example.org/linux.git") (Some "master") None
          0 [].

(** Builds numbered 1, 2, 3, ... *)
Definition sequential_ids (n : nat) : Z := Z.of_nat (S n).

(** A backend that answers every submission with build number 7. *)
Definition constant_ids (n : nat) : Z := 7%Z.

(** A new watcher that has submitted two baseline builds. *)
Definition two_baselines (E : Env) : State :=
  snd (check_baseline E (snd (check_baseline E (init None None)))).

(** A patch URL with a newline after the patch id. *)
Definition url_with_newline : string :=
  ("http://pw/patch/12" ++ String "010" EmptyString)%string.

(** The sample world with sequential build numbers and successful
    builds. *)
Definition sequential_env : Env :=
  sample_env 0 (Some "c0ffee") sequential_ids SUCCESS.

(** The sample world with one build number for every submission. *)
Definition constant_env : Env :=
  sample_env 0 (Some "c0ffee") constant_ids SUCCESS.

(** A dropped series whose only patch URL ends with a newline. *)
Definition series_with_newline : SeriesSummary :=
  mkSeries None ["http://pw/patch/12/mbox"] [url_with_newline]
           [(12%Z, "2018-03-01 10:00:00")]
           "<20180301-3@example.org>" "[PATCH] x" ["dev@example.org"].

Definition patch_12 : PatchInfo :=
  mkPatchInfo 12 (PyStr "net: fix") url_with_newline "http://pw" 1
              "2018-03-01T10:00:00".

(** The calls of the batch of the sample project. *)
Definition sample_batch : list Event :=
  trace (snd (check_patchwork_project sequential_env "c0ffee" 0
                                      sample_project sample_state)).

(** The sample world in which the filter exits with 127 on the first
    series. *)
Definition failing_filter_env : Env :=
  sample_env 127 (Some "c0ffee") sequential_ids SUCCESS.

(** The sample world without a stable baseline. *)
Definition no_baseline_env : Env :=
  sample_env 0 None sequential_ids SUCCESS.

(** The sample world in which build 1 is complete and no other is. *)
Definition one_complete_env : Env :=
  sample_env_with (fun b => (b =? 1)%Z) 0 (Some "c0ffee") sequential_ids
                  SUCCESS.

(** A URL that lacks the [/patch/] part. *)
Definition malformed_url : string := "http://pw/patches/5".

Definition series_malformed : SeriesSummary :=
  mkSeries None ["http://pw/patches/5/mbox"] [malformed_url]
           [(5%Z, "2018-03-01 10:00:00")]
           "<20180301-4@example.org>" "[PATCH] y" ["dev@example.org"].

(** The sample world in which every build ends with an infrastructure
    error. *)
Definition error_env : Env :=
  sample_env 0 (Some "c0ffee") sequential_ids ERROR.

(** A watcher whose in-flight list holds one entry of an unknown job
    type. *)
Definition unknown_job_state : State :=
  mkState None None [mkJob (OtherJob 5) 9 None] [] None None None 0 [].

(** A watcher whose in-flight list holds the same entry of an unknown job
    type twice, among entries of the two known types. *)
Definition unknown_job_among : State :=
  mkState None None
          [mkJob BASELINE 3 None; mkJob (OtherJob 5) 9 None;
           mkJob PATCHWORK 4 (Some 0%nat); mkJob (OtherJob 5) 9 None]
          [] None None None 0 [].


(** The tuple of the patch 103 of the sample tracker. *)
Definition patch_103 : PatchInfo :=
  mkPatchInfo 103 (PyStr "net: fix") "http://pw/patch/103" "http://pw" 1
              "2018-03-01T10:00:00".

(** A tracker record without a date. *)
Definition undated_record : pyval :=
  PyDict [("name", PyStr "net: fix"); ("project_id", PyInt 1)].

(** The sample world whose tracker answers with the undated record. *)
Definition undated_env : Env :=
  mkEnv (sample_status 0)
        (fun _ => Some "c0ffee")
        (fun _ _ => Some 100%Z) (fun _ _ => None)
        (fun _ _ => None) (fun _ _ => None)
        (fun _ _ _ => [])
        (fun _ _ => 1%Z)
        (fun _ => [series_101_102; series_103])
        (fun _ _ => [])
        (fun _ _ => undated_record)
        sequential_ids
        (fun _ => true)
        (fun _ => SUCCESS)
        (fun _ => "http://jenkins/job/sktm/1")
        (fun _ => "c0ffee")
        (fun _ => "2018-03-01")
        (fun _ => ["http://pw/patch/101"; "http://pw/patch/102"]).

(** The sample world with three interfaces: the trackers of the first and
    of the third report nothing new, the tracker of the second reports the
    series {101, 102}, on which the filter exits with 127. *)
Definition second_fails_env : Env :=
  mkEnv (sample_status 127)
        (fun _ => Some "c0ffee")
        (fun _ _ => Some 100%Z) (fun _ _ => None)
        (fun _ _ => None) (fun _ _ => None)
        (fun _ _ _ => [])
        (fun _ _ => 1%Z)
        (fun cpw => if (cpw =? 1)%nat then [series_101_102] else [])
        (fun _ _ => [])
        (fun _ _ => sample_record)
        sequential_ids
        (fun _ => true)
        (fun _ => SUCCESS)
        (fun _ => "http://jenkins/job/sktm/1")
        (fun _ => "c0ffee")
        (fun _ => "2018-03-01")
        (fun _ => ["http://pw/patch/101"; "http://pw/patch/102"]).

(** A watcher with a filter program and three tracked projects. *)
Definition three_projects : State :=
  mkState (Some "/usr/bin/series-filter") None []
          [sample_project;
           mkProject PatchworkV1Project "http://pw" "linux-mm" 2
                     (Some (LastPatch 100)) None [];
           mkProject PatchworkV1Project "http://pw" "linux-doc" 3
                     (Some (LastPatch 100)) None []]
          (Some "git://git.example.org/linux.git") (Some "master") None
          0 [].

(** ** Basic facts *)

Lemma log_all_nil (st : State) : log_all [] st = st.
Proof. destruct st; unfold log_all; simpl. now rewrite app_nil_r. Qed.

Lemma log_all_app (a b : list Event) (st : State) :
  log_all b (log_all a st) = log_all (a ++ b) st.
Proof. unfold log_all; simpl. now rewrite app_assoc. Qed.

Lemma log_is_log_all (e : Event) (st : State) : log e st = log_all [e] st.
Proof. reflexivity. Qed.

Lemma filter_program_log_all (evs : list Event) (st : State) :
  filter_program (log_all evs st) = filter_program st.
Proof. reflexivity. Qed.

(** ** The filter gate *)

Section FilterGate.

Variable E : Env.
Variable prog : string.

(** On series that all exit with 0 or 1 the loop ends normally, with the
    series partitioned by status, in order. *)
Lemma filter_loop_partition (l ready dropped : list SeriesSummary)
    (st : State) :
  Forall (accepted E prog) l ->
  filter_loop E prog l ready dropped st =
    (Ok (ready ++ filter (status_is E prog 0) l,
         dropped ++ filter (status_is E prog 1) l),
     log_all (map (filter_event E prog) l) st).
Proof.
  intros Hl. revert ready dropped st.
  induction Hl as [|s l Hs _ IH]; intros ready dropped st; simpl.
  - now rewrite !app_nil_r, log_all_nil.
  - unfold bind, subprocess_call_m, call, status_is.
    fold (filter_status E prog s).
    destruct Hs as [Hs|Hs]; rewrite Hs; simpl.
    + rewrite IH, log_is_log_all, log_all_app, <- app_assoc.
      unfold filter_event at 2. now rewrite Hs.
    + rewrite IH, log_is_log_all, log_all_app, <- app_assoc.
      unfold filter_event at 2. now rewrite Hs.
Qed.

(** The exception raised for a status other than 0 and 1. *)
Lemma filter_loop_fatal (l1 l2 ready dropped : list SeriesSummary)
    (s : SeriesSummary) (st : State) :
  Forall (accepted E prog) l1 ->
  ~ accepted E prog s ->
  let status := filter_status E prog s in
  let cmd := filter_cmd prog s in
  fst (filter_loop E prog (l1 ++ s :: l2) ready dropped st) =
    Raise (if (status =? 127)%Z then FilterFailed cmd
           else if (status <? 0)%Z then FilterSignal cmd (- status)
           else FilterInvalidStatus cmd status).
Proof.
  intros Hl Hs. revert ready dropped st.
  induction Hl as [|x l1 Hx _ IH]; intros ready dropped st; simpl.
  - unfold bind, subprocess_call_m, call.
    fold (filter_status E prog s). fold (filter_cmd prog s).
    destruct (Z.eqb_spec (filter_status E prog s) 0) as [H0|H0];
      [exfalso; apply Hs; now left|].
    destruct (Z.eqb_spec (filter_status E prog s) 1) as [H1|H1];
      [exfalso; apply Hs; now right|].
    destruct (filter_status E prog s =? 127)%Z; [reflexivity|].
    destruct (filter_status E prog s <? 0)%Z; reflexivity.
  - unfold bind, subprocess_call_m, call.
    fold (filter_status E prog x).
    destruct Hx as [Hx|Hx]; rewrite Hx; simpl; apply IH.
Qed.

End FilterGate.

(** ** The patch URL pattern *)

Lemma list_ascii_of_string_app (a b : string) :
  list_ascii_of_string (a ++ b) =
  list_ascii_of_string a ++ list_ascii_of_string b.
Proof. induction a as [|c a IH]; simpl; [reflexivity | now rewrite IH]. Qed.

Lemma string_of_list_ascii_app (a b : list ascii) :
  string_of_list_ascii (a ++ b) =
  (string_of_list_ascii a ++ string_of_list_ascii b)%string.
Proof. induction a as [|c a IH]; simpl; [reflexivity | now rewrite IH]. Qed.

Lemma is_newline_eq (c : ascii) : is_newline c = true -> c = "010"%char.
Proof.
  unfold is_newline. intros H. apply Nat.eqb_eq in H.
  rewrite <- (ascii_nat_embedding c), H. reflexivity.
Qed.

Lemma digit_not_newline (c : ascii) :
  is_digit c = true -> is_newline c = false.
Proof.
  unfold is_digit, is_newline. intros H.
  apply andb_true_iff in H. destruct H as [H _].
  apply Nat.leb_le in H. apply Nat.eqb_neq. lia.
Qed.

Lemma span_digits_spec (l ds rest : list ascii) :
  span_digits l = (ds, rest) ->
  l = ds ++ rest /\ forallb is_digit ds = true.
Proof.
  revert ds rest. induction l as [|c l IH]; intros ds rest;
    cbn [span_digits].
  - intros H. injection H as <- <-. now split.
  - destruct (is_digit c) eqn:Hc.
    + destruct (span_digits l) as [ds' rest'].
      intros H. injection H as <- <-.
      destruct (IH ds' rest' eq_refl) as [-> Hd].
      cbn [forallb app]. rewrite Hc, Hd. now split.
    + intros H. injection H as <- <-. now split.
Qed.

Lemma span_digits_app (ds rest : list ascii) :
  forallb is_digit ds = true ->
  match rest with [] => True | c :: _ => is_digit c = false end ->
  span_digits (ds ++ rest) = (ds, rest).
Proof.
  intros Hd Hr. induction ds as [|c ds IH]; cbn [app span_digits].
  - destruct rest as [|c rest]; cbn [span_digits];
      [reflexivity | now rewrite Hr].
  - cbn [forallb] in Hd. apply andb_true_iff in Hd. destruct Hd as [Hc Hd].
    now rewrite Hc, (IH Hd).
Qed.

Lemma strip_prefix_spec (p l x : list ascii) :
  strip_prefix p l = Some x <-> l = p ++ x.
Proof.
  revert l. induction p as [|a p IH]; intros l; simpl.
  - split; [now intros [= ->] | now intros ->].
  - destruct l as [|b l]; [split; discriminate|].
    destruct (Ascii.eqb_spec a b) as [->|Hab].
    + rewrite IH. split; [now intros -> | now intros [= ->]].
    + split; [discriminate | intros [= -> _]; now elim Hab].
Qed.

Lemma existsb_rev_ascii (f : ascii -> bool) (l : list ascii) :
  existsb f (rev l) = existsb f l.
Proof.
  induction l as [|c l IH]; simpl; [reflexivity|].
  rewrite existsb_app, IH. simpl. now rewrite orb_false_r, orb_comm.
Qed.

Lemma forallb_rev_ascii (f : ascii -> bool) (l : list ascii) :
  forallb f (rev l) = forallb f l.
Proof.
  induction l as [|c l IH]; simpl; [reflexivity|].
  rewrite forallb_app, IH. simpl. now rewrite andb_true_r, andb_comm.
Qed.

(** The matcher computes exactly the matches of the pattern. *)
Lemma re_match_patch_url_spec (u base digits : string) :
  re_match_patch_url u = Some (base, digits) <-> re_patch_url u base digits.
Proof.
  unfold re_match_patch_url, re_patch_url. split.
  - set (r0 := rev (list_ascii_of_string u)).
    assert (Hu : u = string_of_list_ascii (rev r0))
      by (unfold r0; now rewrite rev_involutive,
            string_of_list_ascii_of_string).
    clearbody r0.
    set (r := match r0 with
              | [] => r0
              | c :: r' => if is_newline c then r' else r0
              end).
    assert (Hr : r0 = r \/ r0 = "010"%char :: r).
    { unfold r. destruct r0 as [|c r']; [now left|].
      destruct (is_newline c) eqn:Hc; [right | now left].
      now rewrite (is_newline_eq c Hc). }
    clearbody r.
    destruct (span_digits r) as [ds rest] eqn:Hspan.
    apply span_digits_spec in Hspan. destruct Hspan as [-> Hds].
    destruct ds as [|d0 ds']; [discriminate|].
    set (ds := d0 :: ds') in *.
    assert (Hne : ds <> []) by discriminate.
    clearbody ds. cbv iota.
    destruct (strip_prefix _ rest) as [b|] eqn:Hb; [|discriminate].
    apply strip_prefix_spec in Hb. subst rest.
    destruct (existsb is_newline b) eqn:Hnl; [discriminate|].
    intros [= <- <-].
    rewrite !list_ascii_of_string_of_list_ascii.
    rewrite forallb_rev_ascii, existsb_rev_ascii.
    repeat split; try assumption.
    + destruct Hr as [->| ->]; [left | right]; rewrite Hu.
      * rewrite !rev_app_distr, rev_involutive, <- !app_assoc.
        now rewrite !string_of_list_ascii_app,
          string_of_list_ascii_of_string.
      * cbn [rev].
        rewrite !rev_app_distr, rev_involutive, <- !app_assoc.
        now rewrite !string_of_list_ascii_app,
          string_of_list_ascii_of_string.
    + intros H. apply Hne.
      apply (f_equal list_ascii_of_string) in H.
      rewrite list_ascii_of_string_of_list_ascii in H. simpl in H.
      apply (f_equal (@rev ascii)) in H.
      now rewrite rev_involutive in H.
  - intros (Hu & Hne & Hds & Hnl).
    set (lb := list_ascii_of_string base) in *.
    set (ld := list_ascii_of_string digits) in *.
    set (P := list_ascii_of_string "/patch/").
    assert (Hld : rev ld <> []).
    { intros H. apply (f_equal (@rev ascii)) in H.
      rewrite rev_involutive in H. simpl in H. apply Hne.
      rewrite <- (string_of_list_ascii_of_string digits).
      fold ld. now rewrite H. }
    assert (Hrest : span_digits (rev ld ++ rev P ++ rev lb) =
                    (rev ld, rev P ++ rev lb)).
    { apply span_digits_app; [now rewrite forallb_rev_ascii | reflexivity]. }
    assert (Hdone :
      (let '(ds, rest) := span_digits (rev ld ++ rev P ++ rev lb) in
       match ds with
       | [] => None
       | _ :: _ =>
           match strip_prefix (rev P) rest with
           | Some b =>
               if existsb is_newline b then None
               else Some (string_of_list_ascii (rev b),
                          string_of_list_ascii (rev ds))
           | None => None
           end
       end) = Some (base, digits)).
    { rewrite Hrest. destruct (rev ld) as [|d0 ds] eqn:Hrv; [now elim Hld|].
      assert (Hp : strip_prefix (rev P) (rev P ++ rev lb) = Some (rev lb))
        by now apply strip_prefix_spec.
      rewrite Hp, existsb_rev_ascii, Hnl, <- Hrv, !rev_involutive.
      unfold lb, ld. now rewrite !string_of_list_ascii_of_string. }
    destruct Hu as [-> | ->].
    + rewrite !list_ascii_of_string_app. fold lb ld P.
      rewrite !rev_app_distr, <- !app_assoc.
      destruct (rev ld) as [|d0 ds] eqn:Hrv; [now elim Hld|].
      assert (Hd0 : is_digit d0 = true).
      { assert (H : forallb is_digit (rev ld) = true)
          by now rewrite forallb_rev_ascii.
        rewrite Hrv in H. simpl in H.
        now apply andb_true_iff in H. }
      simpl app at 1. cbv iota.
      rewrite (digit_not_newline d0 Hd0). exact Hdone.
    + rewrite !list_ascii_of_string_app. fold lb ld P.
      rewrite !rev_app_distr, <- !app_assoc.
      simpl list_ascii_of_string. simpl rev at 1. simpl app at 1.
      cbv iota. change (is_newline "010") with true. cbv iota.
      exact Hdone.
Qed.


(** A URL of the shape ends with a digit. *)
Lemma patch_url_shape_last (u base digits : string) :
  patch_url_shape u base digits ->
  exists l c, list_ascii_of_string u = l ++ [c] /\ is_digit c = true.
Proof.
  intros (-> & Hne & Hd).
  rewrite !list_ascii_of_string_app.
  destruct (list_ascii_of_string digits) as [|c0 ds] eqn:Hl using rev_ind.
  - elim Hne. rewrite <- (string_of_list_ascii_of_string digits).
    now rewrite Hl.
  - rewrite forallb_app in Hd. apply andb_true_iff in Hd.
    destruct Hd as [_ Hc]. simpl in Hc. rewrite andb_true_r in Hc.
    exists (list_ascii_of_string base ++
            list_ascii_of_string "/patch/" ++ ds), c0.
    split; [now rewrite <- !app_assoc | assumption].
Qed.

Lemma int_of_digits_snoc (ds : list ascii) (c : ascii) :
  int_of_digits (ds ++ [c]) = (10 * int_of_digits ds + digit_value c)%Z.
Proof. unfold int_of_digits. now rewrite fold_left_app. Qed.

Lemma replace_char_length (old new : ascii) (s : string) :
  String.length (replace_char old new s) = String.length s.
Proof. induction s as [|c s IH]; simpl; [reflexivity | now rewrite IH]. Qed.

Lemma replace_char_get (old new : ascii) (s : string) (n : nat) :
  String.get n (replace_char old new s) =
  option_map (fun c => if Ascii.eqb c old then new else c) (String.get n s).
Proof.
  revert n. induction s as [|c s IH]; intros n; simpl; [reflexivity|].
  destruct n as [|n]; simpl; [reflexivity | apply IH].
Qed.

(** ** Patch info resolution *)

Section PatchInfoResolution.

Variable E : Env.

Lemma get_patch_info_from_url_malformed (interface : option nat)
    (patch_url : string) (st : State) :
  re_match_patch_url patch_url = None ->
  get_patch_info_from_url E interface patch_url st =
    (Raise (MalformedPatchUrl patch_url), st).
Proof.
  intros H. unfold get_patch_info_from_url. now rewrite H.
Qed.

(** A resolution leaves the state as it is, but for the record lookup it
    may have made on the tracker. *)
Lemma get_patch_info_from_url_state (interface : option nat)
    (patch_url : string) (st : State) :
  exists evs,
    snd (get_patch_info_from_url E interface patch_url st) = log_all evs st /\
    Forall (fun e => exists cpw patch_id, e = EvGetPatchById cpw patch_id)
           evs.
Proof.
  unfold get_patch_info_from_url.
  destruct (re_match_patch_url patch_url) as [[baseurl digits]|];
    [|exists []; simpl; now rewrite log_all_nil].
  unfold bind, get, raise, lift, ret, pw_get_patch_by_id_m, call.
  destruct interface as [cpw|];
    [|exists []; simpl; now rewrite log_all_nil].
  destruct (nth_error (pw st) cpw) as [project|];
    [|exists []; simpl; now rewrite log_all_nil].
  exists [EvGetPatchById cpw (int_of_digits (list_ascii_of_string digits))].
  split; [|repeat constructor; eauto].
  repeat match goal with
         | |- context [match ?x with Ok _ => _ | Raise _ => _ end] =>
             destruct x
         end; reflexivity.
Qed.

(** What a successful resolution returns. *)
Lemma get_patch_info_from_url_ok (interface : option nat)
    (patch_url : string) (st : State) (info : PatchInfo) :
  fst (get_patch_info_from_url E interface patch_url st) = Ok info ->
  pi_patch_url info = patch_url /\
  exists digits,
    re_patch_url patch_url (pi_baseurl info) digits /\
    pi_patch_id info = int_of_digits (list_ascii_of_string digits).
Proof.
  unfold get_patch_info_from_url.
  destruct (re_match_patch_url patch_url) as [[baseurl digits]|] eqn:Hm;
    [|discriminate].
  apply re_match_patch_url_spec in Hm.
  unfold bind, get, raise, lift, ret, pw_get_patch_by_id_m, call.
  destruct interface as [cpw|]; [|discriminate].
  destruct (nth_error (pw st) cpw) as [project|]; [|discriminate].
  repeat match goal with
         | |- context [match ?x with Ok _ => _ | Raise _ => _ end] =>
             destruct x; try discriminate
         end.
  simpl. intros [= <-]. simpl. eauto.
Qed.

End PatchInfoResolution.


(** ** Ingestion: [check_patchwork] *)

Lemma evolve_same (st : State) :
  evolve st (pj st) (submitted st) [] = st.
Proof. destruct st; unfold evolve; simpl. now rewrite app_nil_r. Qed.

Lemma evolve_evolve (st : State) (l l' : list Job) (n n' : nat)
    (evs evs' : list Event) :
  evolve (evolve st l n evs) l' n' evs' = evolve st l' n' (evs ++ evs').
Proof. unfold evolve; simpl. now rewrite app_assoc. Qed.

Lemma log_all_evolve (st : State) (evs : list Event) :
  log_all evs st = evolve st (pj st) (submitted st) evs.
Proof. reflexivity. Qed.

Section Ingestion.

Variable E : Env.

(** The filter gate only runs the filter program. *)
Lemma filter_loop_state (prog : string) (l ready dropped : list SeriesSummary)
    (st : State) :
  exists evs,
    snd (filter_loop E prog l ready dropped st) = log_all evs st /\
    forallb is_filter evs = true.
Proof.
  revert ready dropped st.
  induction l as [|s l IH]; intros ready dropped st; simpl.
  - exists []. now rewrite log_all_nil.
  - unfold bind, subprocess_call_m, call, raise.
    set (status := subprocess_call E (filter_argv prog s)).
    destruct (status =? 0)%Z;
      [|destruct (status =? 1)%Z;
        [|exists [EvFilter (filter_argv prog s) status];
          destruct (status =? 127)%Z; [|destruct (status <? 0)%Z];
          now split]].
    + destruct (IH (ready ++ [s]) dropped
                   (log (EvFilter (filter_argv prog s) status) st))
        as (evs & -> & Hf).
      exists (EvFilter (filter_argv prog s) status :: evs).
      now rewrite log_is_log_all, log_all_app.
    + destruct (IH ready (dropped ++ [s])
                   (log (EvFilter (filter_argv prog s) status) st))
        as (evs & -> & Hf).
      exists (EvFilter (filter_argv prog s) status :: evs).
      now rewrite log_is_log_all, log_all_app.
Qed.

Lemma filter_patchsets_state (l : list SeriesSummary) (st : State) :
  exists evs,
    snd (filter_patchsets E l st) = log_all evs st /\
    forallb is_filter evs = true.
Proof.
  unfold filter_patchsets, bind, get, ret.
  destruct (filter_program st) as [prog|].
  - apply filter_loop_state.
  - exists []. now rewrite log_all_nil.
Qed.

(** Resolving the URLs of a series: only record lookups are made, the
    tuples come back in the order of the URLs, and one URL the pattern
    rejects makes the whole resolution raise. *)
Lemma map_m_patch_info (interface : option nat) (urls : list string)
    (st : State) :
  exists evs,
    snd (map_m (get_patch_info_from_url E interface) urls st) =
      log_all evs st /\
    forallb is_get_patch evs = true /\
    (forall patches,
        fst (map_m (get_patch_info_from_url E interface) urls st) =
          Ok patches ->
        map pi_patch_url patches = urls) /\
    ((exists u, In u urls /\ re_match_patch_url u = None) ->
     exists e,
       fst (map_m (get_patch_info_from_url E interface) urls st) = Raise e).
Proof.
  revert st. induction urls as [|u urls IH]; intros st; simpl.
  - exists []. rewrite log_all_nil. repeat split.
    + unfold ret. simpl. now intros ? [= <-].
    + intros (u & [] & _).
  - unfold bind at 1 3 5.
    destruct (get_patch_info_from_url_state E interface u st)
      as (evs1 & Hst1 & Hev1).
    pose proof (get_patch_info_from_url_ok E interface u st) as Hok.
    pose proof (get_patch_info_from_url_malformed E interface u st) as Hbad.
    destruct (get_patch_info_from_url E interface u st) as [[info|e] st1].
    + simpl in Hst1. subst st1.
      destruct (IH (log_all evs1 st)) as (evs2 & Hst2 & Hev2 & Hurls & Hraise).
      unfold bind, ret.
      destruct (map_m (get_patch_info_from_url E interface) urls
                      (log_all evs1 st)) as [[infos|e] st2];
        simpl in Hst2; subst st2; exists (evs1 ++ evs2);
        rewrite log_all_app; simpl.
      * repeat split.
        -- rewrite forallb_app, Hev2, andb_true_r.
           apply forallb_forall. intros x Hx.
           rewrite Forall_forall in Hev1.
           destruct (Hev1 x Hx) as (? & ? & ->). reflexivity.
        -- intros patches [= <-]. simpl.
           destruct (Hok info eq_refl) as [-> _].
           now rewrite (Hurls infos eq_refl).
        -- intros (x & [<-|Hx] & Hnone).
           ++ specialize (Hbad Hnone). discriminate.
           ++ destruct Hraise as [e He]; [now exists x | discriminate].
      * repeat split.
        -- rewrite forallb_app, Hev2, andb_true_r.
           apply forallb_forall. intros x Hx.
           rewrite Forall_forall in Hev1.
           destruct (Hev1 x Hx) as (? & ? & ->). reflexivity.
        -- discriminate.
        -- intros _. now exists e.
    + simpl in Hst1. subst st1. exists evs1. simpl. repeat split.
      * apply forallb_forall. intros x Hx.
        rewrite Forall_forall in Hev1.
        destruct (Hev1 x Hx) as (? & ? & ->). reflexivity.
      * discriminate.
      * intros _. now exists e.
Qed.

(** The value of a resolution depends on the state only through the
    list of interfaces. *)
Lemma get_patch_info_from_url_fst (interface : option nat) (u : string)
    (st st' : State) :
  pw st' = pw st ->
  fst (get_patch_info_from_url E interface u st') =
  fst (get_patch_info_from_url E interface u st).
Proof.
  intros Hpw. unfold get_patch_info_from_url.
  destruct (re_match_patch_url u) as [[baseurl digits]|]; [|reflexivity].
  unfold bind, get, raise, lift, ret, pw_get_patch_by_id_m, call.
  rewrite Hpw.
  destruct interface as [cpw|]; [|reflexivity].
  destruct (nth_error (pw st) cpw) as [project|]; [|reflexivity].
  repeat match goal with
         | |- context [match ?x with Ok _ => _ | Raise _ => _ end] =>
             destruct x
         end; reflexivity.
Qed.

Lemma map_m_patch_info_fst (interface : option nat) (urls : list string)
    (st st' : State) :
  pw st' = pw st ->
  fst (map_m (get_patch_info_from_url E interface) urls st') =
  fst (map_m (get_patch_info_from_url E interface) urls st).
Proof.
  revert st st'. induction urls as [|u urls IH]; intros st st' Hpw; simpl;
    [reflexivity|].
  unfold bind at 1 3.
  pose proof (get_patch_info_from_url_fst interface u st st' Hpw) as Hfst.
  destruct (get_patch_info_from_url_state E interface u st)
    as (evs & Hst & _).
  destruct (get_patch_info_from_url_state E interface u st')
    as (evs' & Hst' & _).
  destruct (get_patch_info_from_url E interface u st) as [[info|e] st1],
    (get_patch_info_from_url E interface u st') as [[info'|e'] st1'];
    simpl in *; try discriminate.
  - injection Hfst as ->. subst st1 st1'. unfold bind, ret.
    assert (H : pw (log_all evs' st') = pw (log_all evs st)) by exact Hpw.
    specialize (IH _ _ H).
    destruct (map_m (get_patch_info_from_url E interface) urls
                    (log_all evs st)) as [[infos|e] st2],
      (map_m (get_patch_info_from_url E interface) urls
             (log_all evs' st')) as [[infos'|e'] st2'];
      simpl in *; congruence.
  - congruence.
Qed.

End Ingestion.

(** Splitting a list at an element that cannot be in its first part. *)
Lemma split_after_prefix {A} (P : A -> bool) (pre sub a c : list A) (e : A) :
  forallb (fun x => negb (P x)) pre = true ->
  P e = true ->
  a ++ e :: c = pre ++ sub ->
  exists x, a = pre ++ x /\ sub = x ++ e :: c.
Proof.
  intros Hpre He Heq.
  apply app_eq_app in Heq. destruct Heq as (l & [[-> H]|[-> H]]).
  - now exists l.
  - destruct l as [|y l].
    + exists []. simpl in H. now rewrite !app_nil_r.
    + simpl in H. injection H as <- ->.
      rewrite forallb_app in Hpre. apply andb_true_iff in Hpre.
      destruct Hpre as [_ Hpre]. simpl in Hpre. now rewrite He in Hpre.
Qed.

Section Batch.

Variable E : Env.
Variable stablecommit : string.
Variable cpw : nat.
Variable project : Project.

Lemma is_get_patch_drop_phase (evs : list Event) :
  forallb is_get_patch evs = true -> forallb is_drop_phase evs = true.
Proof.
  intros H. apply forallb_forall. intros e He.
  rewrite forallb_forall in H. specialize (H e He). now destruct e.
Qed.

(** One dropped series: its URLs are resolved, then the tuples are
    committed in one call; when a resolution raises, nothing is
    committed. *)
Lemma save_dropped_spec (series : SeriesSummary) (st : State) :
  exists evs,
    snd (save_dropped E cpw series st) = log_all evs st /\
    forallb is_drop_phase evs = true /\
    (fst (save_dropped E cpw series st) = Ok tt ->
     exists patches,
       In (EvCommitSeries patches) evs /\
       fst (map_m (get_patch_info_from_url E (Some cpw))
                  (patch_url_list series) st) = Ok patches) /\
    (forall e, fst (save_dropped E cpw series st) = Raise e ->
               forallb is_get_patch evs = true) /\
    ((exists u, In u (patch_url_list series) /\
                re_match_patch_url u = None) ->
     exists e, fst (save_dropped E cpw series st) = Raise e).
Proof.
  unfold save_dropped, bind.
  destruct (map_m_patch_info E (Some cpw) (patch_url_list series) st)
    as (evs & Hst & Hev & _ & Hraise).
  destruct (map_m (get_patch_info_from_url E (Some cpw))
                  (patch_url_list series) st) as [[patches|e] st1];
    simpl in Hst; subst st1.
  - exists (evs ++ [EvCommitSeries patches]).
    unfold db_commit_series_m, call. simpl.
    rewrite log_is_log_all, log_all_app. repeat split.
    + rewrite forallb_app. simpl.
      now rewrite (is_get_patch_drop_phase evs Hev).
    + intros _. exists patches. split; [|reflexivity].
      apply in_or_app. right. now left.
    + discriminate.
    + intros Hbad. destruct (Hraise Hbad) as [e He]. discriminate.
  - exists evs. simpl. repeat split.
    + now apply is_get_patch_drop_phase.
    + discriminate.
    + intros _ _. exact Hev.
    + intros _. now exists e.
Qed.

(** The drop phase of a batch. *)
Lemma for_each_save_dropped (dropped : list SeriesSummary) (st : State) :
  exists evs,
    snd (for_each dropped (save_dropped E cpw) st) = log_all evs st /\
    forallb is_drop_phase evs = true /\
    (fst (for_each dropped (save_dropped E cpw) st) = Ok tt ->
     forall d, In d dropped ->
       exists patches,
         In (EvCommitSeries patches) evs /\
         fst (map_m (get_patch_info_from_url E (Some cpw))
                    (patch_url_list d) st) = Ok patches).
Proof.
  revert st. induction dropped as [|s l IH]; intros st; simpl.
  - exists []. rewrite log_all_nil. repeat split. intros _ d [].
  - unfold bind.
    destruct (save_dropped_spec s st) as (evs1 & Hst1 & Hev1 & Hok1 & _).
    destruct (save_dropped E cpw s st) as [[[]|e] st1];
      simpl in Hst1; subst st1.
    + destruct (IH (log_all evs1 st)) as (evs2 & Hst2 & Hev2 & Hok2).
      exists (evs1 ++ evs2). rewrite Hst2, log_all_app. repeat split.
      * now rewrite forallb_app, Hev1, Hev2.
      * intros Hok d [<-|Hd].
        -- destruct (Hok1 eq_refl) as (patches & Hin & Hu).
           exists patches. split; [apply in_or_app; now left | exact Hu].
        -- destruct (Hok2 Hok d Hd) as (patches & Hin & Hu).
           exists patches. split; [apply in_or_app; now right|].
           rewrite <- Hu. symmetry. now apply map_m_patch_info_fst.
    + exists evs1. simpl. repeat split; [exact Hev1 | discriminate].
Qed.

Lemma submit_events_config (st : State) (l' : list Job) (n' : nat)
    (evs : list Event) (n : nat) (pj0 : list Job) (l : list SeriesSummary) :
  submit_events E (evolve st l' n' evs) stablecommit cpw project n pj0 l =
  submit_events E st stablecommit cpw project n pj0 l.
Proof.
  revert n pj0. induction l as [|s l IH]; intros n pj0; simpl;
    [reflexivity | now rewrite IH].
Qed.

(** The submit phase of a batch: for each series in turn a build is
    requested, its entry joins the in-flight list, and the patches of the
    series are marked pending. *)
Lemma for_each_submit_series (l : list SeriesSummary) (st : State) :
  for_each l (submit_series E cpw project stablecommit) st =
    (Ok tt,
     evolve st (pj st ++ submit_jobs E cpw (submitted st) l)
            (submitted st + List.length l)
            (submit_events E st stablecommit cpw project
                           (submitted st) (pj st) l)).
Proof.
  revert st. induction l as [|s l IH]; intros st; simpl.
  - unfold ret. now rewrite app_nil_r, Nat.add_0_r, evolve_same.
  - unfold bind at 1.
    assert (H1 : submit_series E cpw project stablecommit s st =
      (Ok tt,
       evolve st (pj st ++ [mkJob PATCHWORK (jk_build_id E (submitted st))
                                  (Some cpw)])
              (S (submitted st))
              [EvBuild (series_build_args st stablecommit s)
                       (jk_build_id E (submitted st));
               InFlight (pj st ++ [mkJob PATCHWORK
                                         (jk_build_id E (submitted st))
                                         (Some cpw)]);
               EvSetPatchsetPending (pw_baseurl project)
                                    (pw_project_id project)
                                    (patch_info_list s)])).
    { unfold submit_series, bind, get, jk_build_m, pj_append,
        db_set_patchset_pending_m, call, log, log_all, set_pj, count_build,
        evolve, series_build_args. simpl.
      now rewrite <- !app_assoc. }
    rewrite H1, IH, evolve_evolve, submit_events_config. simpl.
    now rewrite <- app_assoc, Nat.add_succ_r.
Qed.

(** In the calls of a submit phase, every pending mark comes right after
    the build request of the same series and the registration of its
    entry. *)
Lemma submit_events_pending (st : State) (l : list SeriesSummary)
    (n : nat) (pj0 : list Job) (before after : list Event)
    (baseurl : string) (project_id : Z) (infos : list (Z * string)) :
  submit_events E st stablecommit cpw project n pj0 l =
    before ++ EvSetPatchsetPending baseurl project_id infos :: after ->
  exists before' series bid inflight,
    before = before' ++ [EvBuild (series_build_args st stablecommit series)
                                 bid;
                         InFlight inflight] /\
    In series l /\
    infos = patch_info_list series /\
    In (mkJob PATCHWORK bid (Some cpw)) inflight.
Proof.
  revert n pj0 before. induction l as [|s l IH]; intros n pj0 before; simpl.
  - destruct before; discriminate.
  - destruct before as [|e1 [|e2 [|e3 before]]]; simpl; try discriminate.
    + intros H. injection H as H1 H2 H3 H4 H5 H6. subst.
      exists [], s, (jk_build_id E n),
        (pj0 ++ [mkJob PATCHWORK (jk_build_id E n) (Some cpw)]).
      repeat split; [now left | apply in_or_app; right; now left].
    + intros H. injection H as H1 H2 H3 H. subst e1 e2 e3.
      destruct (IH _ _ _ H) as (b' & series & bid & inflight &
                                -> & Hin & -> & Hjob).
      eexists (_ :: _ :: _ :: b'), series, bid, inflight.
      repeat split; [now right | exact Hjob].
Qed.

(** Every series of a submit phase has its build request, registration
    and pending mark, in this order and next to each other. *)
Lemma submit_events_complete (st : State) (l : list SeriesSummary)
    (n : nat) (pj0 : list Job) (series : SeriesSummary) :
  In series l ->
  exists before bid inflight after,
    submit_events E st stablecommit cpw project n pj0 l =
      before
      ++ EvBuild (series_build_args st stablecommit series) bid
      :: InFlight inflight
      :: EvSetPatchsetPending (pw_baseurl project) (pw_project_id project)
                              (patch_info_list series)
      :: after.
Proof.
  revert n pj0. induction l as [|s l IH]; intros n pj0; simpl; [easy|].
  intros [<-|Hin].
  - now eexists [], _, _, _.
  - destruct (IH (S n)
                 (pj0 ++ [mkJob PATCHWORK (jk_build_id E n) (Some cpw)])
                 Hin) as (b & bid & inflight & a & ->).
    now eexists (_ :: _ :: _ :: b), bid, inflight, a.
Qed.

Lemma drop_phase_not_submit (evs : list Event) :
  forallb is_drop_phase evs = true -> forallb not_submit_phase evs = true.
Proof.
  intros H. apply forallb_forall. intros e He.
  rewrite forallb_forall in H. specialize (H e He). now destruct e.
Qed.

Lemma is_filter_not_submit (evs : list Event) :
  forallb is_filter evs = true -> forallb not_submit_phase evs = true.
Proof.
  intros H. apply forallb_forall. intros e He.
  rewrite forallb_forall in H. specialize (H e He). now destruct e.
Qed.

(** The value a filter run returns does not depend on the state it runs
    in, but for the configured program. *)
Lemma filter_loop_fst (prog : string) (l ready dropped : list SeriesSummary)
    (st st' : State) :
  fst (filter_loop E prog l ready dropped st) =
  fst (filter_loop E prog l ready dropped st').
Proof.
  revert ready dropped st st'.
  induction l as [|s l IH]; intros ready dropped st st'; simpl;
    [reflexivity|].
  unfold bind, subprocess_call_m, call, raise.
  repeat match goal with
         | |- context [if ?b then _ else _] => destruct b
         end; try reflexivity; apply IH.
Qed.

Lemma filter_patchsets_fst (l : list SeriesSummary) (evs : list Event)
    (st : State) :
  fst (filter_patchsets E l (log_all evs st)) = fst (filter_patchsets E l st).
Proof.
  unfold filter_patchsets, bind, get, ret.
  rewrite filter_program_log_all.
  destruct (filter_program st); [apply filter_loop_fst | reflexivity].
Qed.

(** The phases of one batch.  The calls before the submit phase contain
    no build request, no pending mark and no change of the in-flight list;
    the batch either ends there with an exception, or has committed every
    dropped series and goes on to submit the ready and the expired
    series. *)
Lemma check_patchwork_project_phases (st : State) :
  let r := check_patchwork_project E stablecommit cpw project st in
  exists pre,
    forallb not_submit_phase pre = true /\
    ((exists e, r = (Raise e, log_all pre st)) \/
     (exists ready dropped,
        fst (filter_patchsets E (pw_get_new_patchsets E cpw) st) =
          Ok (ready, dropped) /\
        (forall d, In d dropped ->
           exists patches,
             In (EvCommitSeries patches) pre /\
             fst (map_m (get_patch_info_from_url E (Some cpw))
                        (patch_url_list d) st) = Ok patches) /\
        let l := ready ++ retry_series E cpw project in
        r = (Ok tt,
             evolve st (pj st ++ submit_jobs E cpw (submitted st) l)
                    (submitted st + List.length l)
                    (pre ++ submit_events E st stablecommit cpw project
                                          (submitted st) (pj st) l)))).
Proof.
  intros r. subst r.
  destruct (filter_patchsets_state E (pw_get_new_patchsets E cpw)
              (log (EvGetNewPatchsets cpw) st)) as (evs1 & Hst1 & Hev1).
  pose proof (filter_patchsets_fst (pw_get_new_patchsets E cpw)
                [EvGetNewPatchsets cpw] st) as Hfst.
  rewrite <- log_is_log_all in Hfst.
  unfold check_patchwork_project, pw_get_new_patchsets_m,
    db_get_expired_pending_patches_m, pw_get_patchsets_m, bind, call.
  destruct (filter_patchsets E (pw_get_new_patchsets E cpw)
              (log (EvGetNewPatchsets cpw) st)) as [[[ready dropped]|e] st1];
    simpl in Hst1; subst st1.
  2:{ exists ([EvGetNewPatchsets cpw] ++ evs1). split.
      - simpl. now apply is_filter_not_submit.
      - left. exists e. now rewrite log_is_log_all, log_all_app. }
  destruct (for_each_save_dropped dropped
              (log_all evs1 (log (EvGetNewPatchsets cpw) st)))
    as (evs2 & Hst2 & Hev2 & Hok2).
  destruct (for_each dropped (save_dropped E cpw)
              (log_all evs1 (log (EvGetNewPatchsets cpw) st)))
    as [[[]|e] st2]; simpl in Hst2; subst st2.
  2:{ exists (([EvGetNewPatchsets cpw] ++ evs1) ++ evs2). split.
      - rewrite forallb_app. simpl.
        now rewrite (is_filter_not_submit evs1 Hev1),
          (drop_phase_not_submit evs2 Hev2).
      - left. exists e. now rewrite log_is_log_all, !log_all_app. }
  set (pre0 := ([EvGetNewPatchsets cpw] ++ evs1) ++ evs2).
  set (ev3 := EvGetExpiredPending (pw_baseurl project)
                                  (pw_project_id project) 43200).
  set (ev4 := EvGetPatchsets cpw
                (db_get_expired_pending_patches E (pw_baseurl project)
                   (pw_project_id project) 43200)).
  exists (pre0 ++ [ev3; ev4]). split.
  - unfold pre0. rewrite !forallb_app. simpl.
    now rewrite (is_filter_not_submit evs1 Hev1),
      (drop_phase_not_submit evs2 Hev2).
  - right. exists ready, dropped. split; [now rewrite <- Hfst|]. split.
    + intros d Hd. destruct (Hok2 eq_refl d Hd) as (patches & Hin & Hu).
      exists patches. split.
      * apply in_or_app. left. unfold pre0. apply in_or_app. now right.
      * rewrite <- Hu. symmetry. now apply map_m_patch_info_fst.
    + rewrite !log_is_log_all, !log_all_app, for_each_submit_series.
      unfold retry_series, pre0.
      rewrite log_all_evolve, evolve_evolve, submit_events_config.
      simpl. now rewrite <- !app_assoc.
Qed.

End Batch.

(** A dropped series with a URL the pattern rejects: the resolution
    raises, and the store is not touched. *)
Lemma save_dropped_malformed (E : Env) (cpw : nat) (series : SeriesSummary)
    (u : string) (st : State) :
  In u (patch_url_list series) ->
  re_match_patch_url u = None ->
  exists e evs,
    save_dropped E cpw series st = (Raise e, log_all evs st) /\
    forallb is_get_patch evs = true.
Proof.
  intros Hin Hbad.
  destruct (save_dropped_spec E cpw series st)
    as (evs & Hst & _ & _ & Hraise & Hmal).
  destruct Hmal as [e He]; [now exists u|].
  exists e, evs. split; [|now apply (Hraise e)].
  destruct (save_dropped E cpw series st) as [r st']. simpl in *.
  now subst.
Qed.

(** C5.  Without a stable baseline commit for the base repository,
    [check_patchwork] raises the configuration error at once: the lookup of
    the stable commit is the only call it makes, and the in-flight list and
    the submission count are as before. *)
Theorem baseline_gate (E : Env) (st : State) :
  db_get_stable E (baserepo st) = None ->
  check_patchwork E st =
    (Raise (NoStableBaseline (baserepo st)),
     log (EvGetStable (baserepo st)) st).
Proof.
  intros H. unfold check_patchwork, bind, get, db_get_stable_m, call, raise.
  now rewrite H.
Qed.

(** The tuples a resolution returns are, URL by URL and in the order of
    the URLs, the tuples [get_patch_info_from_url] returns. *)
Lemma map_m_patch_info_each (E : Env) (interface : option nat)
    (urls : list string) :
  forall (st st' : State) (patches : list PatchInfo),
    pw st' = pw st ->
    fst (map_m (get_patch_info_from_url E interface) urls st) = Ok patches ->
    Forall2 (fun u info =>
               fst (get_patch_info_from_url E interface u st') = Ok info)
            urls patches.
Proof.
  induction urls as [|u urls IH]; intros st st' patches Hpw; simpl.
  - unfold ret. simpl. intros [= <-]. constructor.
  - unfold bind at 1.
    pose proof (get_patch_info_from_url_fst E interface u st st' Hpw) as Hfst.
    destruct (get_patch_info_from_url_state E interface u st)
      as (evs & Hst & _).
    destruct (get_patch_info_from_url E interface u st) as [[info|e] st1];
      simpl in Hst, Hfst; [|discriminate].
    subst st1. unfold bind, ret.
    assert (H : pw st' = pw (log_all evs st)) by exact Hpw.
    specialize (IH (log_all evs st) st').
    destruct (map_m (get_patch_info_from_url E interface) urls
                    (log_all evs st)) as [[infos|e] st2]; simpl;
      [|discriminate].
    intros [= <-]. constructor; [exact Hfst | now apply IH].
Qed.

(** C4.  In the calls of one batch, every build request comes after the
    commit of the patch info tuples of each series the filter dropped.
    The tuples committed for a dropped series are the ones
    [get_patch_info_from_url] returns for the patch URLs of the series,
    one for each URL and in the order of the URLs. *)
Theorem drop_before_submit (E : Env) (st : State) (stablecommit : string)
    (cpw : nat) (project : Project) (ready dropped : list SeriesSummary)
    (evs : list Event) :
  fst (filter_patchsets E (pw_get_new_patchsets E cpw) st) =
    Ok (ready, dropped) ->
  trace (snd (check_patchwork_project E stablecommit cpw project st)) =
    trace st ++ evs ->
  forall before args bid after,
    evs = before ++ EvBuild args bid :: after ->
    forall d, In d dropped ->
      exists patches,
        In (EvCommitSeries patches) before /\
        fst (map_m (get_patch_info_from_url E (Some cpw))
                   (patch_url_list d) st) = Ok patches /\
        map pi_patch_url patches = patch_url_list d /\
        Forall2 (fun u info =>
                   fst (get_patch_info_from_url E (Some cpw) u st) = Ok info)
                (patch_url_list d) patches.
Proof.
  intros Hf Htr before args bid after Hev d Hd.
  destruct (check_patchwork_project_phases E stablecommit cpw project st)
    as (pre & Hpre & [[e Hr]|(ready' & dropped' & Hf' & Hdrop & Hr)]).
  - rewrite Hr in Htr. simpl in Htr. apply app_inv_head in Htr. subst pre.
    rewrite Hev, forallb_app in Hpre. apply andb_true_iff in Hpre.
    destruct Hpre as [_ Hpre]. discriminate.
  - rewrite Hf in Hf'. injection Hf' as <- <-.
    cbv zeta in Hr. rewrite Hr in Htr. simpl in Htr.
    apply app_inv_head in Htr. rewrite Hev in Htr.
    symmetry in Htr.
    apply (split_after_prefix is_submit_phase) in Htr;
      [|exact Hpre | reflexivity].
    destruct Htr as (x & -> & _).
    destruct (Hdrop d Hd) as (patches & Hin & Hres).
    exists patches. split; [apply in_or_app; now left|].
    split; [exact Hres|]. split.
    + destruct (map_m_patch_info E (Some cpw) (patch_url_list d) st)
        as (_ & _ & _ & Hurls & _).
      now apply Hurls.
    + now apply (map_m_patch_info_each E (Some cpw) (patch_url_list d) st).
Qed.

(** C7.  In the calls of one batch, every pending mark comes right after
    the build request for the same series and the registration of its
    in-flight entry; and when the batch completes, every ready series has
    its build request followed by its pending mark. *)
Theorem submit_before_pending (E : Env) (st : State) (stablecommit : string)
    (cpw : nat) (project : Project) (evs : list Event) :
  trace (snd (check_patchwork_project E stablecommit cpw project st)) =
    trace st ++ evs ->
  (forall before baseurl project_id infos after,
      evs = before
            ++ EvSetPatchsetPending baseurl project_id infos :: after ->
      exists before' series bid inflight,
        before = before'
                 ++ [EvBuild (series_build_args st stablecommit series) bid;
                     InFlight inflight] /\
        infos = patch_info_list series /\
        In (mkJob PATCHWORK bid (Some cpw)) inflight) /\
  (forall ready dropped series,
      fst (check_patchwork_project E stablecommit cpw project st) = Ok tt ->
      fst (filter_patchsets E (pw_get_new_patchsets E cpw) st) =
        Ok (ready, dropped) ->
      In series ready ->
      exists before bid inflight after,
        evs = before
              ++ EvBuild (series_build_args st stablecommit series) bid
              :: InFlight inflight
              :: EvSetPatchsetPending (pw_baseurl project)
                                      (pw_project_id project)
                                      (patch_info_list series)
              :: after).
Proof.
  intros Htr.
  destruct (check_patchwork_project_phases E stablecommit cpw project st)
    as (pre & Hpre & [[e Hr]|(ready' & dropped' & Hf' & _ & Hr)]).
  - rewrite Hr in Htr. simpl in Htr. apply app_inv_head in Htr. subst pre.
    split.
    + intros before baseurl project_id infos after ->.
      rewrite forallb_app in Hpre. apply andb_true_iff in Hpre.
      destruct Hpre as [_ Hpre]. discriminate.
    + intros ready dropped series Hok. rewrite Hr in Hok. discriminate.
  - cbv zeta in Hr. rewrite Hr in Htr. simpl in Htr.
    apply app_inv_head in Htr. split.
    + intros before baseurl project_id infos after Hev.
      rewrite Hev in Htr.
      symmetry in Htr.
      apply (split_after_prefix is_submit_phase) in Htr;
        [|exact Hpre | reflexivity].
      destruct Htr as (x & -> & Hsub).
      apply submit_events_pending in Hsub.
      destruct Hsub as (b' & series & bid & inflight & -> & _ & -> & Hjob).
      exists (pre ++ b'), series, bid, inflight.
      now rewrite <- app_assoc.
    + intros ready dropped series _ Hf Hin.
      rewrite Hf in Hf'. injection Hf' as <- <-.
      destruct (submit_events_complete E stablecommit cpw project st
                  (ready ++ retry_series E cpw project)
                  (submitted st) (pj st) series)
        as (b & bid & inflight & a & Hsub);
        [apply in_or_app; now left|].
      exists (pre ++ b), bid, inflight, a.
      now rewrite <- Htr, Hsub, <- app_assoc.
Qed.

(** ** Reconciliation: [check_pending] *)

Lemma list_remove_spec (x : Job) (l l' : list Job) :
  list_remove x l = Some l' ->
  exists a b, l = a ++ x :: b /\ l' = a ++ b /\ ~ In x a.
Proof.
  revert l'. induction l as [|y l IH]; intros l'; simpl; [discriminate|].
  destruct (Job_eq_dec y x) as [->|Hyx].
  - intros [= <-]. now exists [], l.
  - destruct (list_remove x l) as [l0|]; [|discriminate].
    intros [= <-]. destruct (IH l0 eq_refl) as (a & b & -> & -> & Ha).
    exists (y :: a), b. repeat split. intros [H|H]; [now elim Hyx | tauto].
Qed.

Lemma list_remove_in (x : Job) (l : list Job) :
  In x l -> exists l', list_remove x l = Some l'.
Proof.
  induction l as [|y l IH]; simpl; [easy|].
  intros H. destruct (Job_eq_dec y x) as [->|Hyx]; [now eexists|].
  destruct IH as [l' ->]; [destruct H; [now elim Hyx | assumption]|].
  now eexists.
Qed.

Lemma list_remove_length (x : Job) (l l' : list Job) :
  list_remove x l = Some l' -> List.length l = S (List.length l').
Proof.
  intros H. apply list_remove_spec in H.
  destruct H as (a & b & -> & -> & _).
  rewrite !length_app. simpl. lia.
Qed.

Lemma list_remove_other (x y : Job) (l l' : list Job) :
  list_remove x l = Some l' -> y <> x -> In y l -> In y l'.
Proof.
  intros H Hyx Hin. apply list_remove_spec in H.
  destruct H as (a & b & -> & -> & _).
  apply in_app_or in Hin. apply in_or_app.
  destruct Hin as [Hin|[Hin|Hin]]; [now left | now elim Hyx | now right].
Qed.

Lemma list_remove_subset (x y : Job) (l l' : list Job) :
  list_remove x l = Some l' -> In y l' -> In y l.
Proof.
  intros H Hin. apply list_remove_spec in H.
  destruct H as (a & b & -> & -> & _).
  apply in_app_or in Hin. apply in_or_app.
  destruct Hin; [now left | right; now right].
Qed.

Section Reconciliation.

Variable E : Env.

(** One round of the loop on an entry whose build is complete: the poll,
    the reads and the removal, then the merge of the result. *)
Lemma check_pending_body_complete (job : Job) (l : list Job) (st : State) :
  jk_is_build_complete E (build_id job) = true ->
  list_remove job (pj st) = Some l ->
  check_pending_body E job st =
    merge_result E job (jk_get_result E (build_id job))
                 (jk_get_base_hash E (build_id job))
                 (jk_get_base_commitdate E (build_id job))
                 (reaped_state job l st).
Proof.
  intros Hc Hl.
  unfold check_pending_body, bind, jk_is_build_complete_m,
    jk_get_result_m, jk_get_result_url_m, jk_get_base_hash_m,
    jk_get_base_commitdate_m, call, pj_remove.
  rewrite Hc. simpl pj. rewrite Hl. f_equal.
  unfold set_pj, log, log_all, reaped_state, evolve, completion_reads.
  simpl. now rewrite <- !app_assoc.
Qed.

(** The merge of a result leaves the in-flight list alone. *)
Lemma merge_result_quiet (job : Job) (bres : TestResult)
    (basehash basedate : string) (st : State) :
  exists evs,
    snd (merge_result E job bres basehash basedate st) = log_all evs st /\
    forallb is_quiet evs = true /\
    (bres = ERROR ->
     evs = [] /\ fst (merge_result E job bres basehash basedate st) = Ok tt).
Proof.
  assert (Hquiet : forall evs, forallb is_get_patch evs = true ->
                               forallb is_quiet evs = true).
  { intros evs H. apply forallb_forall. intros e He.
    rewrite forallb_forall in H. specialize (H e He). now destruct e. }
  assert (Hrun : bres <> ERROR ->
    exists evs,
      snd (merge_result E job bres basehash basedate st) = log_all evs st /\
      forallb is_quiet evs = true).
  { intros Hres. unfold merge_result.
    assert (Hgoal : exists evs,
      snd (match job_type job with
           | BASELINE =>
               bind (get baserepo)
                    (fun repo => db_update_baseline_m repo basehash
                                   basedate bres (build_id job))
           | PATCHWORK =>
               bind (jk_get_patch_url_list_m E (build_id job))
                    (fun urls =>
                       bind (map_m (get_patch_info_from_url E (job_pw job))
                                   urls)
                            (fun patches => db_commit_tested_m patches))
           | OtherJob n => raise (UnknownJobType n)
           end st) = log_all evs st /\
      forallb is_quiet evs = true).
    { destruct (job_type job).
      - eexists [_]. split; reflexivity.
      - unfold bind, jk_get_patch_url_list_m, call.
        destruct (map_m_patch_info E (job_pw job)
                    (jk_get_patch_url_list E (build_id job))
                    (log (EvGetPatchUrlList (build_id job)) st))
          as (evs & Hsnd & Hev & _).
        destruct (map_m (get_patch_info_from_url E (job_pw job))
                    (jk_get_patch_url_list E (build_id job))
                    (log (EvGetPatchUrlList (build_id job)) st))
          as [[patches|e] st1]; simpl in Hsnd; subst st1.
        + exists (EvGetPatchUrlList (build_id job)
                  :: evs ++ [EvCommitTested patches]).
          unfold db_commit_tested_m, call. simpl.
          rewrite !log_is_log_all, !log_all_app. split; [reflexivity|].
          simpl. rewrite forallb_app, (Hquiet evs Hev). reflexivity.
        + exists (EvGetPatchUrlList (build_id job) :: evs). simpl.
          rewrite !log_is_log_all, !log_all_app. split; [reflexivity|].
          simpl. now apply Hquiet.
      - exists []. simpl. now rewrite log_all_nil. }
    destruct bres; [exact Hgoal | exact Hgoal | now elim Hres]. }
  destruct bres.
  - destruct Hrun as (evs & H1 & H2); [discriminate|].
    exists evs. repeat split; auto; discriminate.
  - destruct Hrun as (evs & H1 & H2); [discriminate|].
    exists evs. repeat split; auto; discriminate.
  - exists []. simpl. rewrite log_all_nil. now repeat split.
Qed.

(** A complete patch series build whose URL list holds a URL the pattern
    rejects: the resolution raises, and the store is not touched. *)
Lemma merge_result_malformed (job : Job) (bres : TestResult)
    (basehash basedate u : string) (st : State) :
  job_type job = PATCHWORK ->
  bres <> ERROR ->
  In u (jk_get_patch_url_list E (build_id job)) ->
  re_match_patch_url u = None ->
  exists e evs,
    merge_result E job bres basehash basedate st =
      (Raise e, log_all (EvGetPatchUrlList (build_id job) :: evs) st) /\
    forallb is_get_patch evs = true.
Proof.
  intros Hty Hres Hin Hbad.
  assert (Hgoal : exists e evs,
    bind (jk_get_patch_url_list_m E (build_id job))
         (fun urls =>
            bind (map_m (get_patch_info_from_url E (job_pw job)) urls)
                 (fun patches => db_commit_tested_m patches)) st =
      (Raise e, log_all (EvGetPatchUrlList (build_id job) :: evs) st) /\
    forallb is_get_patch evs = true).
  { unfold bind, jk_get_patch_url_list_m, call.
    destruct (map_m_patch_info E (job_pw job)
                (jk_get_patch_url_list E (build_id job))
                (log (EvGetPatchUrlList (build_id job)) st))
      as (evs & Hsnd & Hev & _ & Hraise).
    destruct Hraise as [e He]; [now exists u|].
    destruct (map_m (get_patch_info_from_url E (job_pw job))
                (jk_get_patch_url_list E (build_id job))
                (log (EvGetPatchUrlList (build_id job)) st))
      as [[patches|e'] st1]; simpl in *; [discriminate|].
    injection He as ->. subst st1. exists e, evs.
    now rewrite log_is_log_all, log_all_app. }
  unfold merge_result. rewrite Hty.
  destruct bres; [exact Hgoal | exact Hgoal | now elim Hres].
Qed.

Lemma check_pending_body_malformed (job : Job) (u : string) (st : State) :
  In job (pj st) ->
  job_type job = PATCHWORK ->
  jk_is_build_complete E (build_id job) = true ->
  jk_get_result E (build_id job) <> ERROR ->
  In u (jk_get_patch_url_list E (build_id job)) ->
  re_match_patch_url u = None ->
  exists e l evs,
    list_remove job (pj st) = Some l /\
    check_pending_body E job st =
      (Raise e,
       log_all (EvGetPatchUrlList (build_id job) :: evs)
               (reaped_state job l st)) /\
    forallb is_get_patch evs = true.
Proof.
  intros Hin Hty Hc Hres Hu Hbad.
  destruct (list_remove_in job (pj st) Hin) as [l Hl].
  destruct (merge_result_malformed job (jk_get_result E (build_id job))
              (jk_get_base_hash E (build_id job))
              (jk_get_base_commitdate E (build_id job)) u
              (reaped_state job l st) Hty Hres Hu Hbad)
    as (e & evs & Hm & Hev).
  exists e, l, evs. repeat split; auto.
  now rewrite (check_pending_body_complete job l st Hc Hl).
Qed.

(** One round of the loop, on an entry of the in-flight list: either the
    build is not complete and only the poll is made; or the reads are made
    and the entry removed, and what follows leaves the in-flight list
    alone. *)
Lemma check_pending_body_spec (job : Job) (st : State) :
  In job (pj st) ->
  (jk_is_build_complete E (build_id job) = false /\
   check_pending_body E job st =
     (Ok tt, log (EvIsBuildComplete (build_id job) false) st)) \/
  (jk_is_build_complete E (build_id job) = true /\
   exists l evs r,
     list_remove job (pj st) = Some l /\
     check_pending_body E job st = (r, log_all evs (reaped_state job l st)) /\
     forallb is_quiet evs = true /\
     (jk_get_result E (build_id job) = ERROR -> evs = [] /\ r = Ok tt)).
Proof.
  intros Hin.
  destruct (jk_is_build_complete E (build_id job)) eqn:Hc; [right | left].
  - split; [reflexivity|].
    destruct (list_remove_in job (pj st) Hin) as [l Hl].
    rewrite (check_pending_body_complete job l st Hc Hl).
    destruct (merge_result_quiet job (jk_get_result E (build_id job))
                (jk_get_base_hash E (build_id job))
                (jk_get_base_commitdate E (build_id job))
                (reaped_state job l st)) as (evs & Hsnd & Hq & Herr).
    destruct (merge_result E job _ _ _ (reaped_state job l st))
      as [r st1]. simpl in *. subst st1.
    exists l, evs, r. repeat split; auto; now apply Herr.
  - split; [reflexivity|].
    unfold check_pending_body, bind, jk_is_build_complete_m, call.
    now rewrite Hc.
Qed.

End Reconciliation.

Section ReconciliationPass.

Variable E : Env.

Lemma check_pending_body_length (job : Job) (st : State) :
  In job (pj st) ->
  (List.length (pj (snd (check_pending_body E job st)))
   <= List.length (pj st))%nat.
Proof.
  intros Hin.
  destruct (check_pending_body_spec E job st Hin)
    as [[_ ->]|(_ & l & evs & r & Hl & -> & _)]; simpl; [lia|].
  apply list_remove_length in Hl. lia.
Qed.

(** A pass needs no more rounds than the in-flight list has entries. *)
Lemma check_pending_loop_total (fuel i : nat) (st : State) :
  (List.length (pj st) <= fuel + i)%nat ->
  exists r, check_pending_loop E fuel i st = Some r.
Proof.
  revert i st. induction fuel as [|fuel IH]; intros i st Hlen; simpl.
  - destruct (nth_error (pj st) i) as [job|] eqn:Hn; [|now eexists].
    assert (i < List.length (pj st))%nat
      by (apply nth_error_Some; congruence).
    lia.
  - destruct (nth_error (pj st) i) as [job|] eqn:Hn; [|now eexists].
    pose proof (check_pending_body_length job st (nth_error_In _ _ Hn)) as Hb.
    destruct (check_pending_body E job st) as [[[]|e] st1]; [|now eexists].
    apply IH. simpl in Hb. lia.
Qed.

Lemma check_pending_body_keeps (job j : Job) (st : State) :
  In job (pj st) ->
  In j (pj st) ->
  jk_is_build_complete E (build_id j) = false ->
  In j (pj (snd (check_pending_body E job st))).
Proof.
  intros Hjob Hj Hc.
  destruct (check_pending_body_spec E job st Hjob)
    as [[_ ->]|(Hcj & l & evs & r & Hl & -> & _)]; simpl; [assumption|].
  apply (list_remove_other job j (pj st) l Hl); [|assumption].
  intros ->. congruence.
Qed.

Lemma check_pending_loop_keeps (fuel i : nat) (st st' : State)
    (r : Res unit) (j : Job) :
  check_pending_loop E fuel i st = Some (r, st') ->
  In j (pj st) ->
  jk_is_build_complete E (build_id j) = false ->
  In j (pj st').
Proof.
  revert i st. induction fuel as [|fuel IH]; intros i st; simpl.
  - destruct (nth_error (pj st) i); [discriminate|]. now intros [= _ <-].
  - destruct (nth_error (pj st) i) as [job|] eqn:Hn; [|now intros [= _ <-]].
    pose proof (check_pending_body_keeps job j st (nth_error_In _ _ Hn))
      as Hk.
    destruct (check_pending_body E job st) as [[[]|e] st1]; simpl in Hk.
    + intros Hloop Hj Hc. apply (IH _ _ Hloop); auto.
    + intros [= _ <-] Hj Hc. auto.
Qed.

End ReconciliationPass.

(** C6.  A round of the reconciler on an in-flight entry whose build is
    complete with the result [ERROR]: the round ends normally, the first
    occurrence of the entry is taken out of the in-flight list (the list
    [a ++ job :: b] becomes [a ++ b], the other entries keeping their
    order), and the only calls made are the completion poll and the four
    reads of the build: no call changes the store, whatever the type of
    the job. *)
Theorem error_result_ignored (E : Env) (job : Job) (st : State) :
  In job (pj st) ->
  jk_is_build_complete E (build_id job) = true ->
  jk_get_result E (build_id job) = ERROR ->
  exists a b,
    pj st = a ++ job :: b /\
    ~ In job a /\
    list_remove job (pj st) = Some (a ++ b) /\
    check_pending_body E job st =
      (Ok tt,
       evolve st (a ++ b) (submitted st)
              (EvIsBuildComplete (build_id job) true
               :: completion_reads (build_id job) ++ [InFlight (a ++ b)])) /\
    pj (snd (check_pending_body E job st)) = a ++ b /\
    List.length (pj (snd (check_pending_body E job st))) =
      pred (List.length (pj st)) /\
    existsb is_store_mutation
            (EvIsBuildComplete (build_id job) true
             :: completion_reads (build_id job) ++ [InFlight (a ++ b)])
      = false.
Proof.
  intros Hin Hc Hres.
  destruct (check_pending_body_spec E job st Hin)
    as [[Hc' _]|(_ & l & evs & r & Hl & Hbody & _ & Herr)]; [congruence|].
  destruct (Herr Hres) as [-> ->].
  destruct (list_remove_spec job (pj st) l Hl) as (a & b & Hpj & -> & Ha).
  exists a, b. rewrite log_all_nil in Hbody. rewrite Hbody.
  split; [exact Hpj|]. split; [exact Ha|]. split; [exact Hl|].
  split; [reflexivity|]. split; [reflexivity|]. split; [|reflexivity].
  unfold reaped_state, evolve. cbn [snd pj]. rewrite Hpj, !length_app.
  simpl. lia.
Qed.

(** ** The in-flight invariant *)

Lemma msteps_trans (ids : nat -> Z) (a b c : State) :
  msteps ids a b -> msteps ids b c -> msteps ids a c.
Proof.
  induction 1 as [|a a' b Hstep _ IH]; [auto|].
  intros Hbc. eapply msteps_step; eauto.
Qed.

Lemma msteps_one (ids : nat -> Z) (a b : State) :
  mstep ids a b -> msteps ids a b.
Proof. intros H. eapply msteps_step; [exact H | constructor]. Qed.

Lemma msteps_log_all (ids : nat -> Z) (st : State) (evs : list Event) :
  forallb is_quiet evs = true -> msteps ids st (log_all evs st).
Proof.
  intros H. apply msteps_one. now apply (mstep_quiet ids st _ evs).
Qed.

Lemma quiet_of (P : Event -> bool) (evs : list Event) :
  (forall e, P e = true -> is_quiet e = true) ->
  forallb P evs = true -> forallb is_quiet evs = true.
Proof.
  intros HP H. apply forallb_forall. intros e He.
  rewrite forallb_forall in H. auto.
Qed.

Lemma is_filter_quiet (evs : list Event) :
  forallb is_filter evs = true -> forallb is_quiet evs = true.
Proof. apply quiet_of. now intros []. Qed.

Lemma is_drop_phase_quiet (evs : list Event) :
  forallb is_drop_phase evs = true -> forallb is_quiet evs = true.
Proof. apply quiet_of. now intros []. Qed.

Lemma quiet_no_inflight (evs : list Event) (l : list Job) :
  forallb is_quiet evs = true -> ~ In (InFlight l) evs.
Proof.
  intros H Hin. rewrite forallb_forall in H. now specialize (H _ Hin).
Qed.

Lemma quiet_no_poll (evs : list Event) (b : Z) (c : bool) :
  forallb is_quiet evs = true -> ~ In (EvIsBuildComplete b c) evs.
Proof.
  intros H Hin. rewrite forallb_forall in H. now specialize (H _ Hin).
Qed.

(** Extending a trace that reaps by one that does. *)
Lemma trace_reaps_app (tr new : list Event) :
  trace_reaps tr ->
  trace_reaps new ->
  (forall b l, In (EvIsBuildComplete b true) tr -> In (InFlight l) new ->
               ~ In b (bids l)) ->
  trace_reaps (tr ++ new).
Proof.
  intros Htr Hnew Hcross t1 b t2 Heq.
  apply app_eq_app in Heq. destruct Heq as (x & [[-> H]|[-> H]]).
  - destruct x as [|y x].
    + simpl in H. rewrite app_nil_r in Hcross.
      apply (Hnew [] b t2). now rewrite H.
    + simpl in H. injection H as <- ->.
      destruct (Htr t1 b x eq_refl) as (l & rest' & -> & Hl).
      exists l, (rest' ++ new). split.
      * now rewrite <- app_assoc.
      * intros l' [Hin|Hin]; [apply Hl; now left|].
        apply in_app_or in Hin. destruct Hin as [Hin|Hin].
        -- apply Hl. now right.
        -- apply (Hcross b l'); [|assumption].
           apply in_or_app. right. now left.
  - apply (Hnew x b t2 H).
Qed.

Lemma trace_reaps_no_done (new : list Event) :
  (forall b, ~ In (EvIsBuildComplete b true) new) -> trace_reaps new.
Proof.
  intros H t1 b t2 ->. elim (H b). apply in_or_app. right. now left.
Qed.

Lemma bids_app (a b : list Job) : bids (a ++ b) = bids a ++ bids b.
Proof. apply map_app. Qed.

Section InFlightInvariant.

Variable ids : nat -> Z.
Hypothesis ids_injective : forall m n, ids m = ids n -> m = n.

Lemma issued_mono (n n' : nat) (b : Z) :
  (n <= n')%nat -> issued ids n b -> issued ids n' b.
Proof. intros Hle (k & Hk & ->). exists k. split; [lia | reflexivity]. Qed.

Lemma issued_fresh (n : nat) : ~ issued ids n (ids n).
Proof. intros (k & Hk & Heq). apply ids_injective in Heq. lia. Qed.

Lemma Inv_mstep (st st' : State) :
  Inv ids st -> mstep ids st st' -> Inv ids st'.
Proof.
  intros [Hnd Hiss Hsnap Hdone Hpoll Hreap] Hstep.
  destruct Hstep as [st st' evs Hpj Hsub Htr Hq
                    |st st' args job Hbid Hpj Hsub Htr
                    |st st' job Hin Hpj Hsub Htr
                    |st st' job l Hl Hpj Hsub Htr].
  - (* quiet *)
    constructor; rewrite ?Hpj, ?Hsub, ?Htr; auto.
    + intros l Hin. apply in_app_or in Hin.
      destruct Hin as [Hin|Hin]; [auto | now elim (quiet_no_inflight evs l)].
    + intros b Hin. apply in_app_or in Hin.
      destruct Hin as [Hin|Hin]; [auto | now elim (quiet_no_poll evs b true)].
    + intros b c Hin. apply in_app_or in Hin.
      destruct Hin as [Hin|Hin]; [eauto | now elim (quiet_no_poll evs b c)].
    + apply trace_reaps_app; auto.
      * apply trace_reaps_no_done. intros b. now apply quiet_no_poll.
      * intros b l _ Hin. now elim (quiet_no_inflight evs l).
  - (* submit *)
    assert (Hfresh : ~ In (build_id job) (bids (pj st))).
    { intros Hin. apply Hiss in Hin. rewrite Hbid in Hin.
      now apply issued_fresh in Hin. }
    assert (Hnd' : NoDup (bids (pj st ++ [job]))).
    { rewrite bids_app. simpl.
      apply NoDup_app; [assumption | repeat constructor; easy |].
      intros x Hx [<-|[]]. contradiction. }
    assert (Hdone' : forall b, In (EvIsBuildComplete b true) (trace st) ->
                               ~ In b (bids (pj st ++ [job]))).
    { intros b Hb. rewrite bids_app. intros Hin.
      apply in_app_or in Hin. destruct Hin as [Hin|[<-|[]]].
      - now apply (Hdone b).
      - apply Hpoll in Hb. rewrite Hbid in Hb.
        now apply issued_fresh in Hb. }
    constructor; rewrite ?Hpj, ?Hsub, ?Htr; auto.
    + intros b. rewrite bids_app. intros Hin.
      apply in_app_or in Hin. destruct Hin as [Hin|[<-|[]]].
      * apply (issued_mono (submitted st)); auto.
      * exists (submitted st). split; [lia | assumption].
    + intros l Hin. apply in_app_or in Hin.
      destruct Hin as [Hin|[Hin|[Hin|[]]]]; [auto | discriminate|].
      now injection Hin as <-.
    + intros b Hin. apply in_app_or in Hin.
      destruct Hin as [Hin|[Hin|[Hin|[]]]]; [auto | discriminate..].
    + intros b c Hin. apply in_app_or in Hin.
      destruct Hin as [Hin|[Hin|[Hin|[]]]]; [|discriminate..].
      apply (issued_mono (submitted st)); eauto.
    + apply trace_reaps_app; auto.
      * apply trace_reaps_no_done.
        intros b [Hin|[Hin|[]]]; discriminate.
      * intros b l Hb [Hin|[Hin|[]]]; [discriminate|].
        injection Hin as <-. auto.
  - (* poll, not complete *)
    constructor; rewrite ?Hpj, ?Hsub, ?Htr; auto.
    + intros l Hl. apply in_app_or in Hl.
      destruct Hl as [Hl|[Hl|[]]]; [auto | discriminate].
    + intros b Hb. apply in_app_or in Hb.
      destruct Hb as [Hb|[Hb|[]]]; [auto | discriminate].
    + intros b c Hb. apply in_app_or in Hb.
      destruct Hb as [Hb|[Hb|[]]]; [eauto|].
      injection Hb as <- <-. apply Hiss. now apply in_map.
    + apply trace_reaps_app; auto.
      * apply trace_reaps_no_done. intros b [Hb|[]]. discriminate.
      * intros b l _ [Hx|[]]. discriminate.
  - (* poll, complete: the entry is removed *)
    subst l. rename Hl into Hrm.
    destruct (list_remove_spec job (pj st) (pj st') Hrm)
      as (a & c & Hsplit & Hpj' & _).
    rewrite Hsplit, bids_app in Hnd. simpl in Hnd.
    assert (Hnd' : NoDup (bids (pj st'))).
    { rewrite Hpj', bids_app. now apply NoDup_remove_1 in Hnd. }
    assert (Hgone : ~ In (build_id job) (bids (pj st'))).
    { rewrite Hpj', bids_app. now apply NoDup_remove_2 in Hnd. }
    assert (Hsubset : forall b, In b (bids (pj st')) -> In b (bids (pj st))).
    { intros b. rewrite Hpj', Hsplit, !bids_app. simpl. intros Hin.
      apply in_app_or in Hin. apply in_or_app.
      destruct Hin; [now left | right; now right]. }
    assert (Hjob : In (build_id job) (bids (pj st))).
    { rewrite Hsplit, bids_app. apply in_or_app. right. now left. }
    assert (Hdone' : forall b,
               In (EvIsBuildComplete b true)
                  (trace st ++ EvIsBuildComplete (build_id job) true
                   :: completion_reads (build_id job)
                   ++ [InFlight (pj st')]) ->
               ~ In b (bids (pj st'))).
    { intros b Hb. apply in_app_or in Hb.
      destruct Hb as [Hb|[Hb|Hb]].
      - intros Hin. now apply (Hdone b Hb), Hsubset.
      - now injection Hb as <-.
      - simpl in Hb. repeat destruct Hb as [Hb|Hb]; try discriminate.
        easy. }
    constructor; rewrite ?Hsub, ?Htr; auto.
    + intros l Hl. apply in_app_or in Hl.
      destruct Hl as [Hl|[Hl|Hl]]; [auto | discriminate|].
      simpl in Hl. repeat destruct Hl as [Hl|Hl]; try discriminate;
        [now injection Hl as <- | easy].
    + intros b c0 Hb. apply in_app_or in Hb.
      destruct Hb as [Hb|[Hb|Hb]]; [eauto | |].
      * injection Hb as <- <-. auto.
      * simpl in Hb. repeat destruct Hb as [Hb|Hb]; try discriminate.
        easy.
    + apply trace_reaps_app; auto.
      * intros t1 b t2 Heq.
        destruct t1 as [|e1 t1].
        -- simpl in Heq. injection Heq as <- <-.
           exists (pj st'), []. split; [reflexivity|].
           intros l' [Hl'|[]]. now injection Hl' as <-.
        -- exfalso. simpl in Heq. injection Heq as _ Heq.
           do 4 (destruct t1 as [|? t1]; [discriminate|];
                 simpl in Heq; injection Heq as _ Heq).
           destruct t1 as [|? t1]; [discriminate|].
           simpl in Heq. injection Heq as _ Heq.
           destruct t1; discriminate.
      * intros b l Hb [Hin|Hin]; [discriminate|].
        simpl in Hin. repeat destruct Hin as [Hin|Hin]; try discriminate;
          [|easy].
        injection Hin as <-. intros Hin. now apply (Hdone b Hb), Hsubset.
Qed.

Lemma Inv_msteps (st st' : State) :
  Inv ids st -> msteps ids st st' -> Inv ids st'.
Proof.
  intros HI Hsteps. induction Hsteps as [|a b c Hstep _ IH]; [assumption|].
  apply IH. now apply (Inv_mstep a b).
Qed.

Lemma Inv_init (patch_filter makeopts : option string) :
  Inv ids (init patch_filter makeopts).
Proof.
  constructor; simpl; try easy.
  - constructor.
  - intros t1 b t2 H. destruct t1; discriminate.
Qed.

End InFlightInvariant.

(** ** The methods move by the steps of the in-flight list *)

Section MethodsStep.

Variable ids : nat -> Z.
Variable E : Env.

Lemma set_baseline_msteps (repo ref cfg : option string) (st : State) :
  msteps ids st (set_baseline repo ref cfg st).
Proof.
  apply msteps_one. apply (mstep_quiet ids _ _ []); try reflexivity.
  simpl. now rewrite app_nil_r.
Qed.

Lemma add_pw_msteps (baseurl pname : string) (lpatch : option Cursor)
    (restapi : bool) (apikey : option string) (skip : list string)
    (st : State) :
  msteps ids st (snd (add_pw E baseurl pname lpatch restapi apikey skip st)).
Proof.
  apply msteps_one. unfold add_pw, bind, call, modify, raise, ret.
  destruct restapi, lpatch as [c|]; simpl;
    try (apply (mstep_quiet ids _ _ []); try reflexivity;
         simpl; now rewrite app_nil_r).
  - destruct (py_max _ _ _); simpl.
    + apply (mstep_quiet ids _ _
               [EvGetLastCheckedDate baseurl (pw_resolve_project_id E baseurl pname);
                EvGetLastPendingDate baseurl (pw_resolve_project_id E baseurl pname)]);
        try reflexivity.
      simpl. now rewrite <- app_assoc.
    + apply (mstep_quiet ids _ _
               [EvGetLastCheckedDate baseurl (pw_resolve_project_id E baseurl pname);
                EvGetLastPendingDate baseurl (pw_resolve_project_id E baseurl pname)]);
        try reflexivity.
      simpl. now rewrite <- app_assoc.
  - destruct (py_max _ _ _); simpl.
    + apply (mstep_quiet ids _ _
               [EvGetLastChecked baseurl (pw_resolve_project_id E baseurl pname);
                EvGetLastPending baseurl (pw_resolve_project_id E baseurl pname)]);
        try reflexivity.
      simpl. now rewrite <- app_assoc.
    + apply (mstep_quiet ids _ _
               [EvGetLastChecked baseurl (pw_resolve_project_id E baseurl pname);
                EvGetLastPending baseurl (pw_resolve_project_id E baseurl pname)]);
        try reflexivity.
      simpl. now rewrite <- app_assoc.
Qed.

Lemma check_pending_body_msteps (job : Job) (st : State) :
  In job (pj st) ->
  msteps ids st (snd (check_pending_body E job st)).
Proof.
  intros Hin.
  destruct (check_pending_body_spec E job st Hin)
    as [[_ ->]|(_ & l & evs & r & Hl & -> & Hq & _)]; simpl.
  - apply msteps_one. now apply (mstep_poll ids _ _ job).
  - eapply msteps_step; [|now apply msteps_log_all].
    now apply (mstep_reap ids _ _ job l).
Qed.

Lemma check_pending_loop_msteps (fuel i : nat) (st st' : State)
    (r : Res unit) :
  check_pending_loop E fuel i st = Some (r, st') -> msteps ids st st'.
Proof.
  revert i st. induction fuel as [|fuel IH]; intros i st; simpl.
  - destruct (nth_error (pj st) i); [discriminate|].
    intros [= _ <-]. constructor.
  - destruct (nth_error (pj st) i) as [job|] eqn:Hn;
      [|intros [= _ <-]; constructor].
    pose proof (check_pending_body_msteps job st (nth_error_In _ _ Hn)) as Hb.
    destruct (check_pending_body E job st) as [[[]|e] st1]; simpl in Hb.
    + intros Hloop. eapply msteps_trans; eauto.
    + now intros [= _ <-].
Qed.

Hypothesis E_numbers : numbers_builds ids E.

Lemma check_baseline_msteps (st : State) :
  msteps ids st (snd (check_baseline E st)).
Proof.
  apply msteps_one. unfold check_baseline, bind, get, jk_build_m, pj_append.
  simpl.
  apply (mstep_submit ids _ _
           (mkBuildArgs (baserepo st) (baseref st) (cfgurl st)
                        None None None None (makeopts st))
           (mkJob BASELINE (jk_build_id E (submitted st)) None));
    simpl; try reflexivity; [apply E_numbers|].
  now rewrite <- app_assoc.
Qed.

Lemma submit_series_msteps (cpw : nat) (project : Project)
    (stablecommit : string) (series : SeriesSummary) (st : State) :
  fst (submit_series E cpw project stablecommit series st) = Ok tt /\
  msteps ids st (snd (submit_series E cpw project stablecommit series st)).
Proof.
  split; [reflexivity|].
  unfold submit_series, bind, get, jk_build_m, pj_append,
    db_set_patchset_pending_m, call. simpl.
  eapply msteps_step; [|apply msteps_log_all; reflexivity].
  apply (mstep_submit ids _ _
           (series_build_args st stablecommit series)
           (mkJob PATCHWORK (jk_build_id E (submitted st)) (Some cpw)));
    simpl; try reflexivity; [apply E_numbers|].
  now rewrite <- app_assoc.
Qed.

Lemma for_each_submit_series_msteps (cpw : nat) (project : Project)
    (stablecommit : string) (l : list SeriesSummary) (st : State) :
  msteps ids st
         (snd (for_each l (submit_series E cpw project stablecommit) st)).
Proof.
  revert st. induction l as [|s l IH]; intros st; simpl; [constructor|].
  unfold bind.
  destruct (submit_series_msteps cpw project stablecommit s st) as [Hok Hs].
  destruct (submit_series E cpw project stablecommit s st) as [[[]|e] st1];
    simpl in *; [|discriminate].
  eapply msteps_trans; eauto.
Qed.

Lemma check_patchwork_project_msteps (stablecommit : string) (cpw : nat)
    (project : Project) (st : State) :
  msteps ids st
         (snd (check_patchwork_project E stablecommit cpw project st)).
Proof.
  destruct (filter_patchsets_state E (pw_get_new_patchsets E cpw)
              (log (EvGetNewPatchsets cpw) st)) as (evs1 & Hst1 & Hev1).
  unfold check_patchwork_project, pw_get_new_patchsets_m,
    db_get_expired_pending_patches_m, pw_get_patchsets_m, bind, call.
  assert (H0 : msteps ids st (log (EvGetNewPatchsets cpw) st))
    by (now apply msteps_log_all).
  destruct (filter_patchsets E (pw_get_new_patchsets E cpw)
              (log (EvGetNewPatchsets cpw) st)) as [[[ready dropped]|e] st1];
    simpl in Hst1; subst st1.
  2:{ simpl. eapply msteps_trans; [exact H0|].
      now apply msteps_log_all, is_filter_quiet. }
  assert (H1 : msteps ids st (log_all evs1 (log (EvGetNewPatchsets cpw) st))).
  { eapply msteps_trans; [exact H0|].
    now apply msteps_log_all, is_filter_quiet. }
  destruct (for_each_save_dropped E cpw dropped
              (log_all evs1 (log (EvGetNewPatchsets cpw) st)))
    as (evs2 & Hst2 & Hev2 & _).
  destruct (for_each dropped (save_dropped E cpw)
              (log_all evs1 (log (EvGetNewPatchsets cpw) st)))
    as [[[]|e] st2]; simpl in Hst2; subst st2.
  2:{ simpl. eapply msteps_trans; [exact H1|].
      now apply msteps_log_all, is_drop_phase_quiet. }
  eapply msteps_trans; [exact H1|].
  eapply msteps_trans;
    [apply msteps_log_all, is_drop_phase_quiet; exact Hev2|].
  eapply msteps_trans; [|apply for_each_submit_series_msteps].
  unfold log.
  eapply msteps_trans; [|apply msteps_log_all; reflexivity].
  apply msteps_log_all; reflexivity.
Qed.

Lemma for_each_project_msteps (stablecommit : string)
    (l : list (nat * Project)) (st : State) :
  msteps ids st
    (snd (for_each l
            (fun '(cpw, project) =>
               check_patchwork_project E stablecommit cpw project) st)).
Proof.
  revert st. induction l as [|[cpw project] l IH]; intros st; simpl;
    [constructor|].
  unfold bind.
  pose proof (check_patchwork_project_msteps stablecommit cpw project st)
    as Hp.
  destruct (check_patchwork_project E stablecommit cpw project st)
    as [[[]|e] st1]; simpl in *; [|assumption].
  eapply msteps_trans; eauto.
Qed.

Lemma check_patchwork_msteps (st : State) :
  msteps ids st (snd (check_patchwork E st)).
Proof.
  unfold check_patchwork, bind, get, db_get_stable_m, call, raise.
  assert (H0 : msteps ids st (log (EvGetStable (baserepo st)) st))
    by (now apply msteps_log_all).
  destruct (db_get_stable E (baserepo st)) as [[|c s]|]; simpl;
    try exact H0.
  eapply msteps_trans; [exact H0|]. apply for_each_project_msteps.
Qed.

End MethodsStep.

Lemma reachable_Inv (ids : nat -> Z) (st : State) :
  (forall m n, ids m = ids n -> m = n) ->
  reachable ids st -> Inv ids st.
Proof.
  intros Hinj Hreach.
  induction Hreach as [pf mk
                      |st repo ref cfg _ IH
                      |st E baseurl pname lpatch restapi apikey skip _ IH
                      |st E _ IH HE
                      |st E _ IH HE
                      |st E r st' _ IH Hpass].
  - apply Inv_init.
  - eapply Inv_msteps; eauto using set_baseline_msteps.
  - eapply Inv_msteps; eauto using add_pw_msteps.
  - eapply Inv_msteps; eauto using check_baseline_msteps.
  - eapply Inv_msteps; eauto using check_patchwork_msteps.
  - eapply Inv_msteps; eauto using check_pending_loop_msteps.
Qed.

(** C3, as the code has it.  Provided the backend never returns the same
    build number for two submissions: in every state a watcher reaches, and
    in every value its in-flight list has taken on the way, no build
    number occurs twice; and once a pass has observed that a build is
    complete, the next calls are the four reads of that build, then the
    entry is removed (so before any call that changes the store), and the
    build number is in no later value of the in-flight list. *)
Theorem in_flight_invariant (ids : nat -> Z) (st : State) :
  (forall m n, ids m = ids n -> m = n) ->
  reachable ids st ->
  NoDup (bids (pj st)) /\
  (forall l, In (InFlight l) (trace st) -> NoDup (bids l)) /\
  (forall t1 b t2,
      trace st = t1 ++ EvIsBuildComplete b true :: t2 ->
      ~ In b (bids (pj st)) /\
      exists l rest,
        t2 = completion_reads b ++ InFlight l :: rest /\
        forall l', In (InFlight l') (InFlight l :: rest) ->
                   ~ In b (bids l')).
Proof.
  intros Hinj Hreach.
  destruct (reachable_Inv ids st Hinj Hreach)
    as [Hnd _ Hsnap Hdone _ Hreap].
  repeat split; auto.
  - apply Hdone. rewrite H. apply in_or_app. right. now left.
  - exact (Hreap t1 b t2 H).
Qed.

Lemma sequential_ids_injective (m n : nat) :
  sequential_ids m = sequential_ids n -> m = n.
Proof. unfold sequential_ids. lia. Qed.

Lemma two_baselines_reachable (ids : nat -> Z) (E : Env) :
  numbers_builds ids E -> reachable ids (two_baselines E).
Proof.
  intros HE. unfold two_baselines.
  repeat (apply reach_check_baseline; [|exact HE]). apply reach_init.
Qed.

Lemma in_flight_invariant_witness :
  (forall m n, sequential_ids m = sequential_ids n -> m = n) /\
  reachable sequential_ids
            (after_pass sequential_env (two_baselines sequential_env)) /\
  NoDup (bids (pj (after_pass sequential_env
                              (two_baselines sequential_env)))).
Proof.
  assert (Hreach : reachable sequential_ids
            (after_pass sequential_env (two_baselines sequential_env))).
  { apply (reach_check_pending sequential_ids
             (two_baselines sequential_env) sequential_env (Ok tt)).
    - apply two_baselines_reachable. intros n. reflexivity.
    - vm_compute. reflexivity. }
  split; [exact sequential_ids_injective|]. split; [exact Hreach|].
  exact (proj1 (in_flight_invariant sequential_ids _
                  sequential_ids_injective Hreach)).
Defined.

(** C3, as stated, fails: with a backend that answers two submissions
    with the same build number, the in-flight list of a watcher that has
    submitted two baseline builds holds that number twice. *)
Lemma in_flight_duplicate_build_id :
  reachable constant_ids (two_baselines constant_env) /\
  bids (pj (two_baselines constant_env)) = [7%Z; 7%Z] /\
  ~ NoDup (bids (pj (two_baselines constant_env))).
Proof.
  split; [|split].
  - apply two_baselines_reachable. intros n. reflexivity.
  - reflexivity.
  - intros H. change (NoDup [7%Z; 7%Z]) in H.
    apply NoDup_cons_iff in H. destruct H as [H _]. apply H. now left.
Qed.

(** C2 at a failing input.  A watcher has two baseline builds in flight,
    numbered 1 and 2, and the backend reports both complete.  One pass
    polls build 1, removes its entry and updates the baseline; the iterator
    then moves past the entry of build 2, which has taken the place of the
    removed one: build 2 is never polled in this pass and its entry stays
    in the in-flight list. *)
Theorem check_pending_skips_next_entry :
  bids (pj (two_baselines sequential_env)) = [1%Z; 2%Z] /\
  jk_is_build_complete sequential_env 2 = true /\
  exists st',
    check_pending sequential_env (two_baselines sequential_env) =
      Some (Ok tt, st') /\
    pj st' = [mkJob BASELINE 2 None] /\
    (forall c, ~ In (EvIsBuildComplete 2 c) (trace st')) /\
    In (EvIsBuildComplete 1 true) (trace st').
Proof.
  split; [reflexivity|]. split; [reflexivity|].
  eexists. split; [vm_compute; reflexivity|].
  split; [reflexivity|]. split.
  - intros c H. simpl in H.
    repeat (destruct H as [H|H]; [discriminate|]). exact H.
  - simpl. tauto.
Qed.

(** ** The filter gate, as a whole *)

Lemma filter_patchsets_some (E : Env) (prog : string)
    (l : list SeriesSummary) (st : State) :
  filter_program st = Some prog ->
  filter_patchsets E l st = filter_loop E prog l [] [] st.
Proof.
  intros H. unfold filter_patchsets, bind, get. now rewrite H.
Qed.

(** C1.  Without a filter program every series is ready and none is
    dropped.  With one: series that all exit with 0 or 1 are partitioned
    into ready (0) and dropped (1); the first series with another status
    aborts the whole batch with the exception of that status: 127, a
    negative status (a signal), or any other value; in particular for a
    single series and the statuses 0, 1, 2, 126, 127 and -9. *)
Theorem filter_exit_code_mapping (E : Env) (st : State) :
  (filter_program st = None ->
   forall l, filter_patchsets E l st = (Ok (l, []), st)) /\
  (forall prog, filter_program st = Some prog ->
     (forall l, Forall (accepted E prog) l ->
        fst (filter_patchsets E l st) =
          Ok (filter (status_is E prog 0) l,
              filter (status_is E prog 1) l)) /\
     (forall l1 s l2, Forall (accepted E prog) l1 ->
        let status := filter_status E prog s in
        let cmd := filter_cmd prog s in
        let r := fst (filter_patchsets E (l1 ++ s :: l2) st) in
        (status = 127 -> r = Raise (FilterFailed cmd))%Z /\
        (status < 0 -> r = Raise (FilterSignal cmd (- status)))%Z /\
        (1 < status -> status <> 127 ->
         r = Raise (FilterInvalidStatus cmd status))%Z) /\
     (forall s,
        let status := filter_status E prog s in
        let cmd := filter_cmd prog s in
        let r := fst (filter_patchsets E [s] st) in
        (status = 0 -> r = Ok ([s], []))%Z /\
        (status = 1 -> r = Ok ([], [s]))%Z /\
        (status = 2 -> r = Raise (FilterInvalidStatus cmd 2))%Z /\
        (status = 126 -> r = Raise (FilterInvalidStatus cmd 126))%Z /\
        (status = 127 -> r = Raise (FilterFailed cmd))%Z /\
        (status = -9 -> r = Raise (FilterSignal cmd 9))%Z)).
Proof.
  split.
  - intros H l. unfold filter_patchsets, bind, get, ret. now rewrite H.
  - intros prog Hprog.
    assert (Hfatal : forall l1 s l2, Forall (accepted E prog) l1 ->
      let status := filter_status E prog s in
      let cmd := filter_cmd prog s in
      let r := fst (filter_patchsets E (l1 ++ s :: l2) st) in
      (status = 127 -> r = Raise (FilterFailed cmd))%Z /\
      (status < 0 -> r = Raise (FilterSignal cmd (- status)))%Z /\
      (1 < status -> status <> 127 ->
       r = Raise (FilterInvalidStatus cmd status))%Z).
    { intros l1 s l2 Hl1 status cmd r. subst r.
      rewrite (filter_patchsets_some E prog _ st Hprog).
      repeat split; intros H.
      - rewrite filter_loop_fatal; auto.
        + fold status. now rewrite H.
        + unfold accepted. fold status. lia.
      - rewrite filter_loop_fatal; auto.
        + fold status cmd.
          destruct (Z.eqb_spec status 127); [lia|].
          destruct (Z.ltb_spec status 0); [reflexivity | lia].
        + unfold accepted. fold status. lia.
      - intros H'. rewrite filter_loop_fatal; auto.
        + fold status cmd.
          destruct (Z.eqb_spec status 127); [lia|].
          destruct (Z.ltb_spec status 0); [lia | reflexivity].
        + unfold accepted. fold status. lia. }
    assert (Hpart : forall l, Forall (accepted E prog) l ->
      fst (filter_patchsets E l st) =
        Ok (filter (status_is E prog 0) l, filter (status_is E prog 1) l)).
    { intros l Hl. rewrite (filter_patchsets_some E prog _ st Hprog).
      now rewrite filter_loop_partition. }
    split; [exact Hpart|]. split; [exact Hfatal|].
    intros s status cmd r.
    destruct (Hfatal [] s [] (Forall_nil _)) as (H127 & Hneg & Hother).
    fold status cmd in H127, Hneg, Hother. simpl app in *. fold r in H127, Hneg, Hother.
    repeat split; intros H.
    + unfold r. rewrite Hpart; [|constructor; [now left | constructor]].
      simpl. unfold status_is. fold status. now rewrite H.
    + unfold r. rewrite Hpart; [|constructor; [now right | constructor]].
      simpl. unfold status_is. fold status. now rewrite H.
    + rewrite <- H. apply Hother; lia.
    + rewrite <- H. apply Hother; lia.
    + now apply H127.
    + replace 9%Z with (- status)%Z by lia. apply Hneg. lia.
Qed.

(** ** Registration of a project: [add_pw] *)

Lemma string_leb_refl (s : string) : String.leb s s = true.
Proof.
  unfold String.leb.
  pose proof (String.compare_antisym s s) as H.
  destruct (String.compare s s); try reflexivity; discriminate.
Qed.

Lemma string_ltb_leb (a b : string) :
  String.ltb a b = true -> String.leb a b = true.
Proof.
  unfold String.ltb, String.leb. now destruct (String.compare a b).
Qed.

Lemma string_not_ltb_leb (a b : string) :
  String.ltb a b = false -> String.leb b a = true.
Proof.
  unfold String.ltb, String.leb. rewrite (String.compare_antisym a b).
  now destruct (String.compare b a).
Qed.

Lemma py_max_none {A} (ltb : A -> A -> bool) (a b : option A) :
  py_max ltb a b = None <-> a = None /\ b = None.
Proof.
  destruct a as [x|], b as [y|]; simpl; try destruct (ltb x y);
    split; try discriminate; try tauto; intros [H1 H2]; discriminate.
Qed.

Lemma py_max_Z (a b : option Z) (m : Z) :
  py_max Z_cursor_ltb a b = Some m -> is_max_of Z.le a b m.
Proof.
  unfold is_max_of, Z_cursor_ltb.
  destruct a as [x|], b as [y|]; simpl; try discriminate.
  - destruct (Z.ltb_spec x y); intros [= <-];
      (split; [tauto|]); split; intros ? [= <-]; lia.
  - intros [= <-]. split; [tauto|].
    split; [intros ? [= <-]; lia | discriminate].
  - intros [= <-]. split; [tauto|].
    split; [discriminate | intros ? [= <-]; lia].
Qed.

Lemma py_max_string (a b : option string) (m : string) :
  py_max String.ltb a b = Some m -> is_max_of string_le a b m.
Proof.
  unfold is_max_of, string_le.
  destruct a as [x|], b as [y|]; simpl; try discriminate.
  - destruct (String.ltb x y) eqn:Hlt; intros [= <-];
      (split; [tauto|]); split; intros ? [= <-];
      auto using string_leb_refl, string_ltb_leb, string_not_ltb_leb.
  - intros [= <-]. split; [tauto|].
    split; [intros ? [= <-]; apply string_leb_refl | discriminate].
  - intros [= <-]. split; [tauto|].
    split; [discriminate | intros ? [= <-]; apply string_leb_refl].
Qed.

(** C8.  Registration without a starting cursor raises the configuration
    error when the store has neither a last checked nor a last pending
    value for the project, and leaves the list of interfaces as it is;
    when the store has one, the interface is added with the greater of the
    values present as its cursor.  With a starting cursor no error is
    raised. *)
Theorem add_pw_bootstrap (E : Env) (st : State) (baseurl pname : string)
    (apikey : option string) (skip : list string) :
  let project_id := pw_resolve_project_id E baseurl pname in
  (let lc := db_get_last_checked_patch E baseurl project_id in
   let lp := db_get_last_pending_patch E baseurl project_id in
   let r := add_pw E baseurl pname None false apikey skip st in
   (lc = None /\ lp = None ->
    fst r = Raise (NeverTested baseurl pname) /\ pw (snd r) = pw st) /\
   (~ (lc = None /\ lp = None) ->
    exists m,
      is_max_of Z.le lc lp m /\
      fst r = Ok tt /\
      pw (snd r) =
        pw st ++ [mkProject PatchworkV1Project baseurl pname project_id
                            (Some (LastPatch m)) None skip])) /\
  (let lc := db_get_last_checked_patch_date E baseurl project_id in
   let lp := db_get_last_pending_patch_date E baseurl project_id in
   let r := add_pw E baseurl pname None true apikey skip st in
   (lc = None /\ lp = None ->
    fst r = Raise (NeverTested baseurl pname) /\ pw (snd r) = pw st) /\
   (~ (lc = None /\ lp = None) ->
    exists m,
      is_max_of string_le lc lp m /\
      fst r = Ok tt /\
      pw (snd r) =
        pw st ++ [mkProject PatchworkV2Project baseurl pname project_id
                            (Some (Since m)) apikey skip])) /\
  (forall restapi c,
      fst (add_pw E baseurl pname (Some c) restapi apikey skip st) = Ok tt).
Proof.
  intros project_id. split; [|split].
  - intros lc lp r. subst r.
    unfold add_pw, bind, call, modify, raise, ret.
    fold project_id. fold lc lp. simpl. split.
    + intros [-> ->]. simpl. now split.
    + intros Hsome.
      destruct (py_max Z_cursor_ltb lc lp) as [m|] eqn:Hmax.
      * exists m. simpl. split; [now apply py_max_Z | now split].
      * apply py_max_none in Hmax. contradiction.
  - intros lc lp r. subst r.
    unfold add_pw, bind, call, modify, raise, ret.
    fold project_id. fold lc lp. simpl. split.
    + intros [-> ->]. simpl. now split.
    + intros Hsome.
      destruct (py_max String.ltb lc lp) as [m|] eqn:Hmax.
      * exists m. simpl. split; [now apply py_max_string | now split].
      * apply py_max_none in Hmax. contradiction.
  - intros [|] c; reflexivity.
Qed.

(** ** A patch URL with a trailing newline *)

(** C9 at a failing input.  The URL ["http://pw/patch/12"] followed by a
    newline is not of the shape base, [/patch/], digits; yet its resolution
    raises nothing and returns the tuple of patch 12, and a dropped series
    with that URL is committed to the store. *)
Theorem trailing_newline_url_accepted :
  (forall base digits, ~ patch_url_shape url_with_newline base digits) /\
  get_patch_info_from_url sequential_env (Some 0%nat) url_with_newline
                          sample_state =
    (Ok patch_12, log (EvGetPatchById 0 12) sample_state) /\
  save_dropped sequential_env 0 series_with_newline sample_state =
    (Ok tt,
     log_all [EvGetPatchById 0 12; EvCommitSeries [patch_12]] sample_state).
Proof.
  split; [|split; reflexivity].
  intros base digits Hshape.
  apply patch_url_shape_last in Hshape.
  destruct Hshape as (l & c & Hl & Hc).
  change (list_ascii_of_string url_with_newline)
    with (list_ascii_of_string "http://pw/patch/12" ++ ["010"%char]) in Hl.
  apply app_inj_tail in Hl. destruct Hl as [_ <-]. discriminate.
Qed.

(** ** The statements on the sample worlds *)

Lemma filter_exit_code_mapping_witness :
  filter_program sample_state = Some "/usr/bin/series-filter" /\
  fst (filter_patchsets sequential_env [series_101_102; series_103]
                        sample_state) =
    Ok ([series_101_102], [series_103]) /\
  fst (filter_patchsets failing_filter_env [series_103; series_101_102]
                        sample_state) =
    Raise (FilterFailed
             (filter_cmd "/usr/bin/series-filter" series_101_102)).
Proof.
  split; [reflexivity|]. split.
  - apply (proj1 (proj2 (filter_exit_code_mapping sequential_env
                           sample_state)
                        "/usr/bin/series-filter" eq_refl)).
    apply Forall_cons; [left; reflexivity|].
    apply Forall_cons; [right; reflexivity|]. apply Forall_nil.
  - assert (H : Forall (accepted failing_filter_env
                                 "/usr/bin/series-filter") [series_103])
      by (apply Forall_cons; [right; reflexivity | apply Forall_nil]).
    exact (proj1 (proj1 (proj2 (proj2 (filter_exit_code_mapping
                                         failing_filter_env sample_state)
                                      "/usr/bin/series-filter" eq_refl))
                        [series_103] series_101_102 [] H)
                 eq_refl).
Defined.

Lemma baseline_gate_witness :
  db_get_stable no_baseline_env (baserepo sample_state) = None /\
  check_patchwork no_baseline_env sample_state =
    (Raise (NoStableBaseline (baserepo sample_state)),
     log (EvGetStable (baserepo sample_state)) sample_state).
Proof.
  split; [reflexivity|].
  apply (baseline_gate no_baseline_env sample_state). reflexivity.
Defined.

Lemma drop_before_submit_witness :
  fst (filter_patchsets sequential_env
         (pw_get_new_patchsets sequential_env 0) sample_state) =
    Ok ([series_101_102], [series_103]) /\
  sample_batch =
    firstn 7 sample_batch
    ++ EvBuild (series_build_args sample_state "c0ffee" series_101_102) 1
    :: skipn 8 sample_batch /\
  build_requests (firstn 7 sample_batch) = [] /\
  filter is_store_mutation (firstn 7 sample_batch) =
    [EvCommitSeries [patch_103]] /\
  exists patches,
    In (EvCommitSeries patches) (firstn 7 sample_batch) /\
    fst (map_m (get_patch_info_from_url sequential_env (Some 0%nat))
               (patch_url_list series_103) sample_state) = Ok patches /\
    map pi_patch_url patches = patch_url_list series_103 /\
    Forall2 (fun u info =>
               fst (get_patch_info_from_url sequential_env (Some 0%nat) u
                                            sample_state) = Ok info)
            (patch_url_list series_103) patches.
Proof.
  split; [vm_compute; reflexivity|]. split; [vm_compute; reflexivity|].
  split; [vm_compute; reflexivity|]. split; [vm_compute; reflexivity|].
  apply (drop_before_submit sequential_env sample_state "c0ffee" 0
           sample_project [series_101_102] [series_103] sample_batch)
    with (before := firstn 7 sample_batch)
         (args := series_build_args sample_state "c0ffee" series_101_102)
         (bid := 1%Z) (after := skipn 8 sample_batch).
  - vm_compute; reflexivity.
  - vm_compute; reflexivity.
  - vm_compute; reflexivity.
  - left. reflexivity.
Defined.

Lemma submit_before_pending_witness :
  sample_batch =
    firstn 9 sample_batch
    ++ EvSetPatchsetPending "http://pw" 1 (patch_info_list series_101_102)
    :: skipn 10 sample_batch /\
  exists before' series bid inflight,
    firstn 9 sample_batch =
      before' ++ [EvBuild (series_build_args sample_state "c0ffee" series)
                          bid;
                  InFlight inflight] /\
    patch_info_list series_101_102 = patch_info_list series /\
    In (mkJob PATCHWORK bid (Some 0%nat)) inflight.
Proof.
  split; [vm_compute; reflexivity|].
  assert (Htrace :
    trace (snd (check_patchwork_project sequential_env "c0ffee" 0
                  sample_project sample_state)) =
    trace sample_state ++ sample_batch) by (vm_compute; reflexivity).
  apply (proj1 (submit_before_pending sequential_env sample_state "c0ffee"
                  0 sample_project sample_batch Htrace))
    with (before := firstn 9 sample_batch)
         (baseurl := "http://pw") (project_id := 1%Z)
         (after := skipn 10 sample_batch).
  vm_compute; reflexivity.
Defined.

Lemma error_result_ignored_witness :
  In (mkJob BASELINE 1 None) (pj (two_baselines error_env)) /\
  jk_is_build_complete error_env 1 = true /\
  jk_get_result error_env 1 = ERROR /\
  pj (two_baselines error_env) =
    [mkJob BASELINE 1 None; mkJob BASELINE 2 None] /\
  pj (snd (check_pending_body error_env (mkJob BASELINE 1 None)
                              (two_baselines error_env))) =
    [mkJob BASELINE 2 None] /\
  exists a b,
    pj (two_baselines error_env) = a ++ mkJob BASELINE 1 None :: b /\
    ~ In (mkJob BASELINE 1 None) a /\
    list_remove (mkJob BASELINE 1 None) (pj (two_baselines error_env)) =
      Some (a ++ b) /\
    check_pending_body error_env (mkJob BASELINE 1 None)
                       (two_baselines error_env) =
      (Ok tt,
       evolve (two_baselines error_env) (a ++ b)
              (submitted (two_baselines error_env))
              (EvIsBuildComplete 1 true
               :: completion_reads 1 ++ [InFlight (a ++ b)])) /\
    pj (snd (check_pending_body error_env (mkJob BASELINE 1 None)
                                (two_baselines error_env))) = a ++ b /\
    List.length (pj (snd (check_pending_body error_env
                            (mkJob BASELINE 1 None)
                            (two_baselines error_env)))) =
      pred (List.length (pj (two_baselines error_env))) /\
    existsb is_store_mutation
            (EvIsBuildComplete 1 true
             :: completion_reads 1 ++ [InFlight (a ++ b)]) = false.
Proof.
  split; [left; reflexivity|]. split; [reflexivity|]. split; [reflexivity|].
  split; [reflexivity|]. split; [reflexivity|].
  apply (error_result_ignored error_env (mkJob BASELINE 1 None)
           (two_baselines error_env)).
  - left. reflexivity.
  - reflexivity.
  - reflexivity.
Defined.

Lemma add_pw_bootstrap_witness :
  ~ (db_get_last_checked_patch sequential_env "http://pw" 1 = None /\
     db_get_last_pending_patch sequential_env "http://pw" 1 = None) /\
  exists m,
    is_max_of Z.le (Some 100%Z) None m /\
    fst (add_pw sequential_env "http://pw" "netdev" None false None []
                (init None None)) = Ok tt /\
    pw (snd (add_pw sequential_env "http://pw" "netdev" None false None []
                    (init None None))) =
      [mkProject PatchworkV1Project "http://pw" "netdev" 1
                 (Some (LastPatch m)) None []].
Proof.
  assert (H : ~ (db_get_last_checked_patch sequential_env "http://pw" 1
                 = None /\
                 db_get_last_pending_patch sequential_env "http://pw" 1
                 = None))
    by (intros [H _]; discriminate).
  split; [exact H|].
  exact (proj2 (proj1 (add_pw_bootstrap sequential_env (init None None)
                         "http://pw" "netdev" None [])) H).
Defined.


(** ** Further properties of the reconciler and of the resolution *)

(** X1.  A pass of [check_pending] terminates: with as many rounds as the
    in-flight list has entries at its start, the loop reaches its end or
    an exception. *)
Theorem check_pending_terminates (E : Env) (st : State) :
  exists r st', check_pending E st = Some (r, st').
Proof.
  destruct (check_pending_loop_total E (List.length (pj st)) 0 st)
    as [[r st'] H]; [lia|].
  now exists r, st'.
Qed.

(** X2.  A pass of [check_pending] leaves in the in-flight list every
    entry whose build the backend reports as not complete. *)
Theorem check_pending_leaves_incomplete (E : Env) (st st' : State)
    (r : Res unit) (job : Job) :
  check_pending E st = Some (r, st') ->
  In job (pj st) ->
  jk_is_build_complete E (build_id job) = false ->
  In job (pj st').
Proof.
  intros Hpass Hin Hc. unfold check_pending in Hpass.
  exact (check_pending_loop_keeps E _ _ st st' r job Hpass Hin Hc).
Qed.

Lemma check_pending_leaves_incomplete_witness :
  In (mkJob BASELINE 2 None) (pj (two_baselines one_complete_env)) /\
  jk_is_build_complete one_complete_env 2 = false /\
  In (mkJob BASELINE 2 None)
     (pj (after_pass one_complete_env (two_baselines one_complete_env))).
Proof.
  assert (Hin : In (mkJob BASELINE 2 None)
                   (pj (two_baselines one_complete_env)))
    by (right; left; reflexivity).
  split; [exact Hin|]. split; [reflexivity|].
  apply (check_pending_leaves_incomplete one_complete_env
           (two_baselines one_complete_env) _ (Ok tt) (mkJob BASELINE 2 None)).
  - vm_compute. reflexivity.
  - exact Hin.
  - reflexivity.
Defined.

Lemma lookups_no_store_mutation (evs : list Event) :
  forallb is_get_patch evs = true -> existsb is_store_mutation evs = false.
Proof.
  induction evs as [|e evs IH]; simpl; [reflexivity|].
  intros H. apply andb_true_iff in H. destruct H as [He H].
  rewrite (IH H). now destruct e.
Qed.

(** X3.  A patch URL the pattern rejects makes the resolution raise
    [MalformedPatchUrl] with the state unchanged; the persistence of a
    dropped series holding it, and the merge of a complete patch series
    build whose URL list holds it, end with an exception before any call
    that changes the store. *)
Theorem malformed_url_aborts (E : Env) (st : State) (u : string) :
  re_match_patch_url u = None ->
  (forall interface,
      get_patch_info_from_url E interface u st =
        (Raise (MalformedPatchUrl u), st)) /\
  (forall cpw series,
      In u (patch_url_list series) ->
      exists e evs,
        save_dropped E cpw series st = (Raise e, log_all evs st) /\
        existsb is_store_mutation evs = false) /\
  (forall job,
      In job (pj st) ->
      job_type job = PATCHWORK ->
      jk_is_build_complete E (build_id job) = true ->
      jk_get_result E (build_id job) <> ERROR ->
      In u (jk_get_patch_url_list E (build_id job)) ->
      exists e l evs,
        list_remove job (pj st) = Some l /\
        check_pending_body E job st =
          (Raise e, log_all evs (reaped_state job l st)) /\
        existsb is_store_mutation evs = false).
Proof.
  intros Hbad. split; [|split].
  - intros interface. now apply get_patch_info_from_url_malformed.
  - intros cpw series Hin.
    destruct (save_dropped_malformed E cpw series u st Hin Hbad)
      as (e & evs & Hrun & Hev).
    exists e, evs. split; [exact Hrun | now apply lookups_no_store_mutation].
  - intros job Hjob Hty Hc Hres Hin.
    destruct (check_pending_body_malformed E job u st Hjob Hty Hc Hres
                Hin Hbad) as (e & l & evs & Hl & Hrun & Hev).
    exists e, l, (EvGetPatchUrlList (build_id job) :: evs).
    repeat split; auto. simpl. now apply lookups_no_store_mutation.
Qed.

Lemma malformed_url_aborts_witness :
  re_match_patch_url malformed_url = None /\
  get_patch_info_from_url sequential_env (Some 0%nat) malformed_url
                          sample_state =
    (Raise (MalformedPatchUrl malformed_url), sample_state) /\
  exists e evs,
    save_dropped sequential_env 0 series_malformed sample_state =
      (Raise e, log_all evs sample_state) /\
    existsb is_store_mutation evs = false.
Proof.
  assert (Hbad : re_match_patch_url malformed_url = None)
    by (vm_compute; reflexivity).
  split; [exact Hbad|].
  destruct (malformed_url_aborts sequential_env sample_state malformed_url
              Hbad) as (H1 & H2 & _).
  split; [apply H1|].
  apply (H2 0%nat series_malformed). left. reflexivity.
Defined.

(** ** The in-flight list after a pass *)

Lemma list_remove_at (x : Job) (a b : list Job) :
  ~ In x a -> list_remove x (a ++ x :: b) = Some (a ++ b).
Proof.
  induction a as [|y a IH]; intros Hx; simpl.
  - destruct (Job_eq_dec x x); [reflexivity | congruence].
  - destruct (Job_eq_dec y x) as [->|Hyx]; [elim Hx; now left|].
    rewrite IH; [reflexivity|]. intros H. apply Hx. now right.
Qed.

Lemma nth_error_at {A} (a b : list A) :
  nth_error (a ++ b) (List.length a) = nth_error b 0.
Proof.
  rewrite nth_error_app2 by lia. now rewrite Nat.sub_diag.
Qed.

Section Sweep.

Variable E : Env.

(** A round that raises is a round on a complete build, with a result
    other than [ERROR], of a job that is not a baseline job. *)
Lemma check_pending_body_raises (job : Job) (st st' : State) (e : Exn) :
  In job (pj st) ->
  check_pending_body E job st = (Raise e, st') ->
  jk_is_build_complete E (build_id job) = true /\
  jk_get_result E (build_id job) <> ERROR /\
  job_type job <> BASELINE /\
  (forall n, job_type job = OtherJob n -> e = UnknownJobType n).
Proof.
  intros Hin Hrun.
  destruct (jk_is_build_complete E (build_id job)) eqn:Hc.
  - split; [reflexivity|].
    destruct (list_remove_in job (pj st) Hin) as [l Hl].
    rewrite (check_pending_body_complete E job l st Hc Hl) in Hrun.
    unfold merge_result in Hrun.
    destruct (jk_get_result E (build_id job)); [| |discriminate];
      (split; [discriminate|]);
      destruct (job_type job) eqn:Hty;
      try (unfold bind, get, db_update_baseline_m, call in Hrun;
           discriminate);
      (split; [discriminate|]); intros m Hm; try discriminate;
      injection Hm as <-; unfold raise in Hrun; congruence.
  - unfold check_pending_body, bind, jk_is_build_complete_m, call in Hrun.
    rewrite Hc in Hrun. discriminate.
Qed.

Lemma check_pending_loop_stop (fuel i : nat) (st : State) :
  nth_error (pj st) i = None ->
  check_pending_loop E fuel i st = Some (Ok tt, st).
Proof. intros H. destruct fuel; simpl; now rewrite H. Qed.

Lemma check_pending_loop_sweep (fuel : nat) :
  forall (i : nat) (st st' : State) (K R : list Job),
    pj st = K ++ R ->
    List.length K = i ->
    NoDup (pj st) ->
    check_pending_loop E fuel i st = Some (Ok tt, st') ->
    pj st' = K ++ sweep E R.
Proof.
  induction fuel as [|fuel IH]; intros i st st' K R Hpj Hlen Hnd.
  - simpl. rewrite Hpj, <- Hlen, nth_error_at.
    destruct R as [|job R]; simpl; [|discriminate].
    intros [= <-]. exact Hpj.
  - simpl. rewrite Hpj, <- Hlen, nth_error_at.
    destruct R as [|job R]; simpl.
    + intros [= <-]. exact Hpj.
    + assert (Hin : In job (pj st))
        by (rewrite Hpj; apply in_or_app; right; now left).
      destruct (check_pending_body_spec E job st Hin)
        as [[Hc ->]|(Hc & l & evs & r & Hl & -> & _ & _)]; rewrite Hc.
      * intros Hloop.
        pose proof (fun H1 H2 H3 =>
                      IH _ _ _ (K ++ [job]) R H1 H2 H3 Hloop) as H.
        rewrite H.
        -- now rewrite <- app_assoc.
        -- simpl. now rewrite <- app_assoc.
        -- rewrite length_app. simpl. lia.
        -- exact Hnd.
      * assert (HK : ~ In job K).
        { rewrite Hpj in Hnd. apply NoDup_remove_2 in Hnd.
          intros H. apply Hnd. apply in_or_app. now left. }
        rewrite Hpj, (list_remove_at job K R HK) in Hl.
        injection Hl as <-.
        destruct r as [[]|e]; [|discriminate].
        intros Hloop.
        assert (Hnd' : NoDup (K ++ R))
          by (rewrite Hpj in Hnd; now apply NoDup_remove_1 in Hnd).
        destruct R as [|next R].
        -- rewrite check_pending_loop_stop in Hloop.
           ++ injection Hloop as <-. reflexivity.
           ++ unfold log_all, reaped_state, evolve. cbn [pj].
              rewrite app_nil_r. apply nth_error_None. lia.
        -- pose proof (fun H1 H2 H3 =>
                         IH _ _ _ (K ++ [next]) R H1 H2 H3 Hloop) as H.
           rewrite H.
           ++ now rewrite <- app_assoc.
           ++ simpl. now rewrite <- app_assoc.
           ++ rewrite length_app. simpl. lia.
           ++ exact Hnd'.
Qed.

Lemma check_pending_loop_raises (fuel : nat) :
  forall (i : nat) (st st' : State) (e : Exn),
    check_pending_loop E fuel i st = Some (Raise e, st') ->
    exists job,
      In job (pj st) /\
      jk_is_build_complete E (build_id job) = true /\
      jk_get_result E (build_id job) <> ERROR /\
      job_type job <> BASELINE /\
      (forall n, job_type job = OtherJob n -> e = UnknownJobType n).
Proof.
  induction fuel as [|fuel IH]; intros i st st' e; simpl.
  - destruct (nth_error (pj st) i); discriminate.
  - destruct (nth_error (pj st) i) as [job|] eqn:Hn; [|discriminate].
    apply nth_error_In in Hn.
    pose proof (check_pending_body_raises job st) as Hraise.
    destruct (check_pending_body_spec E job st Hn)
      as [[Hc Hrun]|(Hc & l & evs & r & Hl & Hrun & _ & _)];
      rewrite Hrun in *.
    + intros Hloop. destruct (IH _ _ _ _ Hloop) as (j & Hj & H).
      exists j. split; [exact Hj | exact H].
    + destruct r as [[]|e'].
      * intros Hloop. destruct (IH _ _ _ _ Hloop) as (j & Hj & H).
        exists j. split; [|exact H].
        apply (list_remove_subset job j (pj st) l Hl). exact Hj.
      * intros [= <- <-]. exists job. split; [exact Hn|].
        exact (Hraise _ _ Hn eq_refl).
Qed.

End Sweep.

(** X4.  After a pass of [check_pending] that ends normally on an
    in-flight list without repeated tuples, the list is the sweep of the
    one before: entries with builds that are not complete stay, each
    entry found complete is removed, and the entry right after a removed
    one stays without having been polled. *)
Theorem check_pending_sweeps (E : Env) (st st' : State) :
  NoDup (pj st) ->
  check_pending E st = Some (Ok tt, st') ->
  pj st' = sweep E (pj st).
Proof.
  intros Hnd Hpass.
  exact (check_pending_loop_sweep E _ 0 st st' [] (pj st) eq_refl eq_refl
           Hnd Hpass).
Qed.

(** X5.  A pass of [check_pending] raises only in a round on an entry of
    the in-flight list whose build is complete with a result other than
    [ERROR] and whose job is not a baseline job; for a job type other than
    the two known ones the exception is the unknown job type error. *)
Theorem check_pending_raises_only_on_merge (E : Env) (st st' : State)
    (e : Exn) :
  check_pending E st = Some (Raise e, st') ->
  exists job,
    In job (pj st) /\
    jk_is_build_complete E (build_id job) = true /\
    jk_get_result E (build_id job) <> ERROR /\
    job_type job <> BASELINE /\
    (forall n, job_type job = OtherJob n -> e = UnknownJobType n).
Proof.
  intros Hpass. unfold check_pending in Hpass.
  exact (check_pending_loop_raises E _ 0 st st' e Hpass).
Qed.

Lemma check_pending_sweeps_witness :
  NoDup (pj (two_baselines sequential_env)) /\
  pj (after_pass sequential_env (two_baselines sequential_env)) =
    sweep sequential_env (pj (two_baselines sequential_env)).
Proof.
  assert (Hnd : NoDup (pj (two_baselines sequential_env))).
  { change (NoDup [mkJob BASELINE 1 None; mkJob BASELINE 2 None]).
    constructor; [intros [H|[]]; discriminate|].
    constructor; [intros []|constructor]. }
  split; [exact Hnd|].
  apply (check_pending_sweeps sequential_env (two_baselines sequential_env)
           _ Hnd).
  vm_compute. reflexivity.
Defined.

Lemma check_pending_raises_only_on_merge_witness :
  exists job,
    In job (pj unknown_job_state) /\
    jk_is_build_complete sequential_env (build_id job) = true /\
    jk_get_result sequential_env (build_id job) <> ERROR /\
    job_type job <> BASELINE /\
    (forall n, job_type job = OtherJob n ->
               UnknownJobType 5 = UnknownJobType n).
Proof.
  apply (check_pending_raises_only_on_merge sequential_env
           unknown_job_state
           (after_pass sequential_env unknown_job_state)
           (UnknownJobType 5)).
  vm_compute. reflexivity.
Defined.

(** ** Draining the in-flight list: [wait_for_pending] *)

Section Drain.

Variable Es : nat -> Env.

Lemma check_pending_loop_length (E : Env) (fuel : nat) :
  forall (i : nat) (st st' : State) (r : Res unit),
    check_pending_loop E fuel i st = Some (r, st') ->
    (List.length (pj st') <= List.length (pj st))%nat.
Proof.
  induction fuel as [|fuel IH]; intros i st st' r; simpl.
  - destruct (nth_error (pj st) i); [discriminate|].
    intros [= _ <-]. lia.
  - destruct (nth_error (pj st) i) as [job|] eqn:Hn;
      [|intros [= _ <-]; lia].
    pose proof (check_pending_body_length E job st (nth_error_In _ _ Hn))
      as Hb.
    destruct (check_pending_body E job st) as [[[]|e] st1]; simpl in Hb.
    + intros Hloop. apply IH in Hloop. lia.
    + intros [= _ <-]. exact Hb.
Qed.

(** A pass that finds the build of the first entry complete shortens the
    in-flight list. *)
Lemma check_pending_shrinks (E : Env) (st st' : State) (r : Res unit)
    (job : Job) (rest : list Job) :
  pj st = job :: rest ->
  jk_is_build_complete E (build_id job) = true ->
  check_pending E st = Some (r, st') ->
  (List.length (pj st') < List.length (pj st))%nat.
Proof.
  intros Hpj Hc. unfold check_pending. rewrite Hpj. simpl.
  rewrite Hpj. simpl.
  assert (Hin : In job (pj st)) by (rewrite Hpj; now left).
  destruct (check_pending_body_spec E job st Hin)
    as [[Hc' _]|(_ & l & evs & r0 & Hl & -> & _ & _)]; [congruence|].
  apply list_remove_length in Hl. rewrite Hpj in Hl. simpl in Hl.
  destruct r0 as [[]|e].
  - intros Hloop. apply check_pending_loop_length in Hloop.
    simpl in Hloop. lia.
  - intros [= _ <-]. simpl. lia.
Qed.

Lemma wait_for_pending_loop_drains (fuel : nat) :
  forall (k : nat) (st st' : State),
    wait_for_pending_loop Es fuel k st = Some (Ok tt, st') -> pj st' = [].
Proof.
  induction fuel as [|fuel IH]; intros k st st'; simpl.
  - destruct (pj st) eqn:Hpj; [|discriminate]. now intros [= <-].
  - destruct (pj st) eqn:Hpj; [now intros [= <-]|].
    destruct (check_pending (Es k) st) as [[[[]|e] st1]|];
      [apply IH | discriminate | discriminate].
Qed.

Hypothesis all_complete :
  forall k b, jk_is_build_complete (Es k) b = true.

Lemma wait_for_pending_loop_terminates (fuel : nat) :
  forall (k : nat) (st : State),
    (List.length (pj st) <= fuel)%nat ->
    exists r st', wait_for_pending_loop Es fuel k st = Some (r, st').
Proof.
  induction fuel as [|fuel IH]; intros k st Hlen; simpl.
  - destruct (pj st); [now eexists _, _ | simpl in Hlen; lia].
  - destruct (pj st) as [|job rest] eqn:Hpj; [now eexists _, _|].
    assert (Hterm : exists r st1, check_pending (Es k) st = Some (r, st1)).
    { destruct (check_pending_loop_total (Es k) (List.length (pj st)) 0 st)
        as [[r st1] H]; [lia | now exists r, st1]. }
    destruct Hterm as (r & st1 & Hpass).
    pose proof (check_pending_shrinks (Es k) st st1 r job rest Hpj
                  (all_complete k (build_id job)) Hpass) as Hlt.
    rewrite Hpass. destruct r as [[]|e]; [|now eexists _, _].
    apply IH. rewrite Hpj in Hlt. simpl in *. lia.
Qed.

End Drain.

(** X6.  [wait_for_pending] returns normally only with an empty
    in-flight list. *)
Theorem wait_for_pending_drains (Es : nat -> Env) (fuel : nat)
    (st st' : State) :
  wait_for_pending Es fuel st = Some (Ok tt, st') -> pj st' = [].
Proof.
  unfold wait_for_pending.
  destruct (check_pending (Es 0%nat) st) as [[[[]|e] st1]|];
    [|discriminate..].
  apply wait_for_pending_loop_drains.
Qed.

(** X7.  When the backend reports every build complete at every poll,
    [wait_for_pending] comes to an end, with an exception or with the
    in-flight list empty, after at most as many further passes as the
    in-flight list has entries at the start: the first entry of the list
    is always polled, so every pass that ends normally shortens the
    list. *)
Theorem wait_for_pending_terminates (Es : nat -> Env) (st : State) :
  (forall k b, jk_is_build_complete (Es k) b = true) ->
  exists r st',
    wait_for_pending Es (List.length (pj st)) st = Some (r, st') /\
    (r = Ok tt -> pj st' = []).
Proof.
  intros Hall. unfold wait_for_pending.
  assert (Hterm : exists r st1,
             check_pending (Es 0%nat) st = Some (r, st1)).
  { destruct (check_pending_loop_total (Es 0%nat) (List.length (pj st)) 0 st)
      as [[r st1] H]; [lia | now exists r, st1]. }
  destruct Hterm as (r & st1 & Hpass).
  pose proof (check_pending_loop_length (Es 0%nat) _ _ _ _ _ Hpass) as Hle.
  rewrite Hpass. destruct r as [[]|e].
  - destruct (wait_for_pending_loop_terminates Es Hall
                (List.length (pj st)) 1 st1 Hle) as (r & st' & Hloop).
    exists r, st'. split; [exact Hloop|].
    intros ->. exact (wait_for_pending_loop_drains Es _ _ _ _ Hloop).
  - exists (Raise e), st1. split; [reflexivity | discriminate].
Qed.

Lemma wait_for_pending_drains_witness :
  exists st',
    wait_for_pending (fun _ => sequential_env) 2
                     (two_baselines sequential_env) = Some (Ok tt, st') /\
    pj st' = [].
Proof.
  eexists. split; [vm_compute; reflexivity|].
  apply (wait_for_pending_drains (fun _ => sequential_env) 2
           (two_baselines sequential_env)).
  vm_compute. reflexivity.
Defined.

Lemma wait_for_pending_terminates_witness :
  (forall (k : nat) (b : Z), jk_is_build_complete sequential_env b = true) /\
  exists r st',
    wait_for_pending (fun _ => sequential_env)
                     (List.length (pj (two_baselines sequential_env)))
                     (two_baselines sequential_env) = Some (r, st') /\
    (r = Ok tt -> pj st' = []).
Proof.
  assert (H : forall (k : nat) (b : Z),
             jk_is_build_complete sequential_env b = true)
    by (intros k b; reflexivity).
  split; [exact H|].
  exact (wait_for_pending_terminates (fun _ => sequential_env)
           (two_baselines sequential_env) H).
Defined.

(** ** From submission to reconciliation *)

Lemma check_baseline_spec (E : Env) (st : State) :
  check_baseline E st =
    (Ok tt,
     evolve st
       (pj st ++ [mkJob BASELINE (jk_build_id E (submitted st)) None])
       (S (submitted st))
       [EvBuild (mkBuildArgs (baserepo st) (baseref st) (cfgurl st)
                             None None None None (makeopts st))
                (jk_build_id E (submitted st));
        InFlight (pj st ++ [mkJob BASELINE (jk_build_id E (submitted st))
                                  None])]).
Proof.
  unfold check_baseline, bind, get, jk_build_m, pj_append, set_pj, log,
    log_all, count_build, evolve. simpl. now rewrite <- app_assoc.
Qed.


(** A pass over an in-flight list of one entry is one round. *)
Lemma check_pending_single (E : Env) (job : Job) (st : State) :
  pj st = [job] ->
  check_pending E st =
    Some (match check_pending_body E job st with
          | (Ok _, st') => (Ok tt, st')
          | (Raise e, st') => (Raise e, st')
          end).
Proof.
  intros Hpj. unfold check_pending. rewrite Hpj.
  cbn [List.length check_pending_loop]. rewrite Hpj.
  change (nth_error [job] 0) with (Some job). cbv beta iota.
  assert (Hin : In job (pj st)) by (rewrite Hpj; now left).
  pose proof (check_pending_body_length E job st Hin) as Hlen.
  rewrite Hpj in Hlen. cbn [List.length] in Hlen.
  destruct (check_pending_body E job st) as [[[]|e] st1]; [|reflexivity].
  cbn [snd] in Hlen.
  destruct (nth_error (pj st1) 1) eqn:Hn; [|reflexivity].
  assert (1 < List.length (pj st1))%nat
    by (apply nth_error_Some; congruence).
  lia.
Qed.

(** X8.  A baseline build from submission to reconciliation.  On a
    watcher with nothing in flight, [check_baseline] requests a build of
    the repository, reference and configuration given to [set_baseline],
    without any patch argument; if the backend then reports that build
    complete with a result other than [ERROR], the next pass of
    [check_pending] removes the entry and updates the baseline of that
    repository with the hash, commit date, result and number of the
    build, and nothing is in flight any more. *)
Theorem baseline_round_trip (E E' : Env) (st : State)
    (repo ref cfg : option string) :
  pj st = [] ->
  let bid := jk_build_id E (submitted st) in
  jk_is_build_complete E' bid = true ->
  jk_get_result E' bid <> ERROR ->
  check_pending E'
    (snd (check_baseline E (set_baseline repo ref cfg st))) =
    Some (Ok tt,
          evolve (set_baseline repo ref cfg st) [] (S (submitted st))
            ([EvBuild (mkBuildArgs repo ref cfg None None None None
                                   (makeopts st)) bid;
              InFlight [mkJob BASELINE bid None];
              EvIsBuildComplete bid true]
             ++ completion_reads bid
             ++ [InFlight [];
                 EvUpdateBaseline repo (jk_get_base_hash E' bid)
                                  (jk_get_base_commitdate E' bid)
                                  (jk_get_result E' bid) bid])).
Proof.
  intros Hpj bid Hc Hres.
  rewrite check_baseline_spec. cbn [snd set_baseline pj submitted baserepo
                                     baseref cfgurl makeopts].
  rewrite Hpj. cbn [app]. fold bid.
  rewrite (check_pending_single E' (mkJob BASELINE bid None));
    [|reflexivity].
  rewrite (check_pending_body_complete E' (mkJob BASELINE bid None) []);
    [|exact Hc|].
  2:{ cbn [evolve pj list_remove].
      destruct (Job_eq_dec (mkJob BASELINE bid None)
                           (mkJob BASELINE bid None)); congruence. }
  unfold merge_result. cbn [job_type build_id].
  destruct (jk_get_result E' bid) eqn:Hr; [| |congruence];
    unfold bind, get, db_update_baseline_m, call, log, log_all,
      reaped_state, evolve, set_baseline, completion_reads;
    simpl; rewrite <- !app_assoc; reflexivity.
Qed.


(** X10.  A complete build of an unknown job type, with a result other
    than [ERROR]: the round raises the unknown job type error after the
    first occurrence of the entry has been taken out of the in-flight list
    (the list [a ++ job :: b] has become [a ++ b]), and no call changes
    the store. *)
Theorem unknown_job_type_removed (E : Env) (job : Job) (n : Z)
    (st : State) :
  In job (pj st) ->
  job_type job = OtherJob n ->
  jk_is_build_complete E (build_id job) = true ->
  jk_get_result E (build_id job) <> ERROR ->
  exists a b,
    pj st = a ++ job :: b /\
    ~ In job a /\
    list_remove job (pj st) = Some (a ++ b) /\
    check_pending_body E job st =
      (Raise (UnknownJobType n), reaped_state job (a ++ b) st) /\
    pj (snd (check_pending_body E job st)) = a ++ b /\
    pj (reaped_state job (a ++ b) st) = a ++ b /\
    List.length (pj (snd (check_pending_body E job st))) =
      pred (List.length (pj st)) /\
    existsb is_store_mutation
            (EvIsBuildComplete (build_id job) true
             :: completion_reads (build_id job) ++ [InFlight (a ++ b)])
      = false.
Proof.
  intros Hin Hty Hc Hres.
  destruct (list_remove_in job (pj st) Hin) as [l Hl].
  destruct (list_remove_spec job (pj st) l Hl) as (a & b & Hpj & -> & Ha).
  assert (Hbody : check_pending_body E job st =
                    (Raise (UnknownJobType n), reaped_state job (a ++ b) st)).
  { rewrite (check_pending_body_complete E job (a ++ b) st Hc Hl).
    unfold merge_result. rewrite Hty.
    destruct (jk_get_result E (build_id job)); [reflexivity | reflexivity|].
    congruence. }
  exists a, b. rewrite Hbody.
  split; [exact Hpj|]. split; [exact Ha|]. split; [exact Hl|].
  split; [reflexivity|]. split; [reflexivity|]. split; [reflexivity|].
  split; [|reflexivity].
  unfold reaped_state, evolve. cbn [snd pj]. rewrite Hpj, !length_app.
  simpl. lia.
Qed.

Lemma baseline_round_trip_witness :
  pj (init None None) = [] /\
  jk_is_build_complete sequential_env 1 = true /\
  jk_get_result sequential_env 1 <> ERROR /\
  check_pending sequential_env
    (snd (check_baseline sequential_env
            (set_baseline (Some "git://git.example.org/linux.git")
                          (Some "master") None (init None None)))) =
    Some (Ok tt,
          evolve (set_baseline (Some "git://git.example.org/linux.git")
                               (Some "master") None (init None None))
            [] 1
            ([EvBuild (mkBuildArgs (Some "git://git.example.org/linux.git")
                                   (Some "master") None None None None
                                   None None) 1;
              InFlight [mkJob BASELINE 1 None];
              EvIsBuildComplete 1 true]
             ++ completion_reads 1
             ++ [InFlight [];
                 EvUpdateBaseline (Some "git://git.example.org/linux.git")
                                  "c0ffee" "2018-03-01" SUCCESS 1])).
Proof.
  assert (Hres : jk_get_result sequential_env 1 <> ERROR) by discriminate.
  split; [reflexivity|]. split; [reflexivity|]. split; [exact Hres|].
  exact (baseline_round_trip sequential_env sequential_env (init None None)
           (Some "git://git.example.org/linux.git") (Some "master") None
           eq_refl eq_refl Hres).
Defined.


Lemma unknown_job_type_removed_witness :
  In (mkJob (OtherJob 5) 9 None) (pj unknown_job_among) /\
  jk_get_result sequential_env 9 <> ERROR /\
  pj unknown_job_among =
    [mkJob BASELINE 3 None; mkJob (OtherJob 5) 9 None;
     mkJob PATCHWORK 4 (Some 0%nat); mkJob (OtherJob 5) 9 None] /\
  fst (check_pending_body sequential_env (mkJob (OtherJob 5) 9 None)
                          unknown_job_among) = Raise (UnknownJobType 5) /\
  pj (snd (check_pending_body sequential_env (mkJob (OtherJob 5) 9 None)
                              unknown_job_among)) =
    [mkJob BASELINE 3 None; mkJob PATCHWORK 4 (Some 0%nat);
     mkJob (OtherJob 5) 9 None] /\
  exists a b,
    pj unknown_job_among = a ++ mkJob (OtherJob 5) 9 None :: b /\
    ~ In (mkJob (OtherJob 5) 9 None) a /\
    list_remove (mkJob (OtherJob 5) 9 None) (pj unknown_job_among)
      = Some (a ++ b) /\
    check_pending_body sequential_env (mkJob (OtherJob 5) 9 None)
                       unknown_job_among =
      (Raise (UnknownJobType 5),
       reaped_state (mkJob (OtherJob 5) 9 None) (a ++ b)
                    unknown_job_among) /\
    pj (snd (check_pending_body sequential_env (mkJob (OtherJob 5) 9 None)
                                unknown_job_among)) = a ++ b /\
    pj (reaped_state (mkJob (OtherJob 5) 9 None) (a ++ b)
                     unknown_job_among) = a ++ b /\
    List.length (pj (snd (check_pending_body sequential_env
                            (mkJob (OtherJob 5) 9 None)
                            unknown_job_among))) =
      pred (List.length (pj unknown_job_among)) /\
    existsb is_store_mutation
            (EvIsBuildComplete 9 true
             :: completion_reads 9 ++ [InFlight (a ++ b)]) = false.
Proof.
  assert (Hin : In (mkJob (OtherJob 5) 9 None) (pj unknown_job_among))
    by (right; left; reflexivity).
  assert (Hres : jk_get_result sequential_env 9 <> ERROR) by discriminate.
  split; [exact Hin|]. split; [exact Hres|].
  split; [reflexivity|]. split; [reflexivity|]. split; [reflexivity|].
  exact (unknown_job_type_removed sequential_env (mkJob (OtherJob 5) 9 None)
           5 unknown_job_among Hin eq_refl eq_refl Hres).
Defined.

(** ** A whole cycle of [check_patchwork] *)

Lemma fetched_app (a b : list Event) :
  fetched (a ++ b) = fetched a ++ fetched b.
Proof. apply flat_map_app. Qed.

Lemma build_requests_app (a b : list Event) :
  build_requests (a ++ b) = build_requests a ++ build_requests b.
Proof. apply flat_map_app. Qed.

Lemma fetched_none (P : Event -> bool) (evs : list Event) :
  (forall cpw, P (EvGetNewPatchsets cpw) = false) ->
  forallb P evs = true -> fetched evs = [].
Proof.
  intros HP. induction evs as [|e evs IH]; simpl; [reflexivity|].
  intros H. apply andb_true_iff in H. destruct H as [He H].
  rewrite (IH H). destruct e; try reflexivity. now rewrite HP in He.
Qed.

Lemma build_requests_none (evs : list Event) :
  forallb not_submit_phase evs = true -> build_requests evs = [].
Proof.
  induction evs as [|e evs IH]; simpl; [reflexivity|].
  intros H. apply andb_true_iff in H. destruct H as [He H].
  rewrite (IH H). now destruct e.
Qed.

Section Cycle.

Variable E : Env.

Lemma submit_events_fetched (st : State) (stablecommit : string)
    (cpw : nat) (project : Project) (l : list SeriesSummary) :
  forall n pj0,
    fetched (submit_events E st stablecommit cpw project n pj0 l) = [].
Proof. induction l as [|s l IH]; intros n pj0; simpl; auto. Qed.

Lemma submit_events_build_requests (st : State) (stablecommit : string)
    (cpw : nat) (project : Project) (l : list SeriesSummary) :
  forall n pj0,
    build_requests (submit_events E st stablecommit cpw project n pj0 l) =
    map (series_build_args st stablecommit) l.
Proof.
  induction l as [|s l IH]; intros n pj0; simpl; [reflexivity|].
  now rewrite IH.
Qed.

Lemma submit_jobs_length (cpw : nat) (l : list SeriesSummary) :
  forall n, List.length (submit_jobs E cpw n l) = List.length l.
Proof. induction l as [|s l IH]; intros n; simpl; auto. Qed.

Lemma submit_jobs_bids (cpw : nat) (l : list SeriesSummary) :
  forall n,
    bids (submit_jobs E cpw n l) =
    map (jk_build_id E) (seq n (List.length l)).
Proof.
  induction l as [|s l IH]; intros n; simpl; [reflexivity|].
  now rewrite <- IH.
Qed.

Lemma submit_jobs_series (cpw : nat) (l : list SeriesSummary) :
  forall n,
    Forall (fun job => job_type job = PATCHWORK /\ job_pw job = Some cpw)
           (submit_jobs E cpw n l).
Proof.
  induction l as [|s l IH]; intros n; simpl; constructor; auto.
Qed.

(** The batch of one interface polls that interface, once, and no
    other. *)
Lemma check_patchwork_project_fetched (stablecommit : string) (cpw : nat)
    (project : Project) (st : State) :
  exists evs,
    trace (snd (check_patchwork_project E stablecommit cpw project st)) =
      trace st ++ evs /\
    fetched evs = [cpw].
Proof.
  destruct (filter_patchsets_state E (pw_get_new_patchsets E cpw)
              (log (EvGetNewPatchsets cpw) st)) as (evs1 & Hst1 & Hev1).
  assert (Hf1 : fetched evs1 = [])
    by (apply (fetched_none is_filter); auto).
  unfold check_patchwork_project, pw_get_new_patchsets_m,
    db_get_expired_pending_patches_m, pw_get_patchsets_m, bind, call.
  destruct (filter_patchsets E (pw_get_new_patchsets E cpw)
              (log (EvGetNewPatchsets cpw) st)) as [[[ready dropped]|e] st1];
    simpl in Hst1; subst st1.
  2:{ exists (EvGetNewPatchsets cpw :: evs1). simpl.
      rewrite Hf1, <- app_assoc. now split. }
  destruct (for_each_save_dropped E cpw dropped
              (log_all evs1 (log (EvGetNewPatchsets cpw) st)))
    as (evs2 & Hst2 & Hev2 & _).
  assert (Hf2 : fetched evs2 = [])
    by (apply (fetched_none is_drop_phase); auto).
  destruct (for_each dropped (save_dropped E cpw)
              (log_all evs1 (log (EvGetNewPatchsets cpw) st)))
    as [[[]|e] st2]; simpl in Hst2; subst st2.
  2:{ exists (EvGetNewPatchsets cpw :: evs1 ++ evs2). simpl.
      rewrite fetched_app, Hf1, Hf2, <- !app_assoc. now split. }
  rewrite for_each_submit_series.
  eexists (EvGetNewPatchsets cpw :: evs1 ++ evs2 ++ _ :: _ :: _). split.
  - simpl. rewrite <- !app_assoc. simpl. reflexivity.
  - simpl. rewrite !fetched_app, Hf1, Hf2. simpl.
    now rewrite submit_events_fetched.
Qed.

(** The in-flight entries the batch of one interface adds. *)
Lemma check_patchwork_project_jobs (stablecommit : string) (cpw : nat)
    (project : Project) (st : State) :
  let st' := snd (check_patchwork_project E stablecommit cpw project st) in
  exists jobs,
    pj st' = pj st ++ jobs /\
    submitted st' = (submitted st + List.length jobs)%nat /\
    pw st' = pw st /\
    Forall (fun job => job_type job = PATCHWORK /\ job_pw job = Some cpw)
           jobs /\
    bids jobs = map (jk_build_id E)
                    (seq (submitted st) (List.length jobs)).
Proof.
  intros st'. subst st'.
  destruct (check_patchwork_project_phases E stablecommit cpw project st)
    as (pre & _ & [[e ->]|(ready & dropped & _ & _ & ->)]).
  - exists []. simpl. rewrite app_nil_r, Nat.add_0_r.
    repeat split; constructor.
  - exists (submit_jobs E cpw (submitted st)
                        (ready ++ retry_series E cpw project)).
    simpl. rewrite submit_jobs_length. repeat split.
    + apply submit_jobs_series.
    + apply submit_jobs_bids.
Qed.

Lemma for_each_project_jobs (stablecommit : string) (l : list Project) :
  forall (n : nat) (st : State),
    let st' := snd (for_each (enumerate_from n l)
                      (fun '(cpw, project) =>
                         check_patchwork_project E stablecommit cpw project)
                      st) in
    exists jobs,
      pj st' = pj st ++ jobs /\
      submitted st' = (submitted st + List.length jobs)%nat /\
      pw st' = pw st /\
      Forall (series_job (n + List.length l)) jobs /\
      bids jobs = map (jk_build_id E)
                      (seq (submitted st) (List.length jobs)).
Proof.
  induction l as [|project l IH]; intros n st st'; subst st'; simpl.
  - exists []. simpl. rewrite app_nil_r, Nat.add_0_r.
    repeat split; constructor.
  - unfold bind.
    destruct (check_patchwork_project_jobs stablecommit n project st)
      as (jobs1 & Hpj1 & Hsub1 & Hpw1 & Hty1 & Hb1).
    assert (Hs1 : Forall (series_job (n + S (List.length l))) jobs1).
    { eapply Forall_impl; [|exact Hty1]. intros job [Ht Hp].
      split; [exact Ht|]. exists n. split; [exact Hp | lia]. }
    destruct (check_patchwork_project E stablecommit n project st)
      as [[[]|e] st1]; simpl in Hpj1, Hsub1, Hpw1.
    + destruct (IH (S n) st1) as (jobs2 & Hpj2 & Hsub2 & Hpw2 & Hty2 & Hb2).
      exists (jobs1 ++ jobs2). rewrite length_app. repeat split.
      * now rewrite Hpj2, Hpj1, app_assoc.
      * rewrite Hsub2, Hsub1. lia.
      * congruence.
      * apply Forall_app. split; [exact Hs1|].
        eapply Forall_impl; [|exact Hty2]. intros job (Ht & k & Hp & Hk).
        split; [exact Ht|]. exists k. split; [exact Hp | lia].
      * rewrite bids_app, Hb1, Hb2, Hsub1, seq_app, map_app. reflexivity.
    + exists jobs1. simpl. repeat split; auto.
Qed.

End Cycle.

(** The batches of a cycle run in the order of the interfaces while they
    end normally; the cycle ends with the first batch that raises, in the
    state this batch leaves. *)
Lemma for_each_project_stops (E : Env) (stablecommit : string)
    (l : list Project) :
  forall (n : nat) (st : State),
    let r := for_each (enumerate_from n l)
               (fun '(cpw, project) =>
                  check_patchwork_project E stablecommit cpw project) st in
    exists evs k,
      trace (snd r) = trace st ++ evs /\
      fetched evs = seq n k /\
      (k <= List.length l)%nat /\
      (fst r = Ok tt -> k = List.length l) /\
      (forall e, fst r = Raise e -> (0 < k)%nat) /\
      (fst r = Ok tt -> batches E stablecommit n l st (snd r)) /\
      (forall e, fst r = Raise e ->
         exists project st1,
           nth_error l (pred k) = Some project /\
           batches E stablecommit n (firstn (pred k) l) st st1 /\
           check_patchwork_project E stablecommit (n + pred k) project st1 =
             (Raise e, snd r)).
Proof.
  induction l as [|project l IH]; intros n st r; subst r; simpl.
  - exists [], 0%nat. rewrite app_nil_r.
    repeat split; auto; try discriminate. constructor.
  - unfold bind.
    destruct (check_patchwork_project_fetched E stablecommit n project st)
      as (evs1 & Htr1 & Hf1).
    destruct (check_patchwork_project E stablecommit n project st)
      as [[[]|e] st1] eqn:Hbatch; simpl in Htr1.
    + destruct (IH (S n) st1)
        as (evs2 & k & Htr2 & Hf2 & Hk & Hok & Hpos & Hall & Hstop).
      exists (evs1 ++ evs2), (S k).
      split; [now rewrite Htr2, Htr1, app_assoc|].
      split; [rewrite fetched_app, Hf1, Hf2; reflexivity|].
      split; [lia|].
      split; [intros H; now rewrite (Hok H)|].
      split; [intros; lia|].
      split.
      * intros H. apply (batches_cons E stablecommit n project l st st1);
          [exact Hbatch | exact (Hall H)].
      * intros e He. destruct (Hstop e He) as (p & st2 & Hnth & Hrun & Hlast).
        pose proof (Hpos e He) as Hk0.
        destruct k as [|k]; [lia|]. simpl in Hnth, Hrun, Hlast |- *.
        exists p, st2. split; [exact Hnth|]. split.
        -- apply (batches_cons E stablecommit n project _ st st1);
             [exact Hbatch | exact Hrun].
        -- rewrite <- Hlast. f_equal. lia.
    + exists evs1, 1%nat. simpl.
      split; [exact Htr1|]. split; [exact Hf1|]. split; [lia|].
      split; [discriminate|]. split; [intros; lia|].
      split; [discriminate|].
      intros e' [= <-]. exists project, st. split; [reflexivity|].
      split; [constructor|]. now rewrite Nat.add_0_r.
Qed.

(** X11.  With a stable baseline, a cycle of [check_patchwork] polls the
    interfaces of [self.pw] for new series in the order of their
    registration, each once, and stops at the first whose batch raises:
    the interfaces after it are not polled in that cycle.  A cycle that
    ends normally has run the batch of every interface, each to a normal
    end.  A cycle that raises has polled [k] interfaces: the batches of
    the first [k - 1] ended normally, the batch of the next one raised the
    exception of the cycle, and the cycle ends in the state this batch
    left. *)
Theorem check_patchwork_polls_in_order (E : Env) (st : State) (c : ascii)
    (s : string) :
  db_get_stable E (baserepo st) = Some (String c s) ->
  exists evs k,
    trace (snd (check_patchwork E st)) =
      trace st ++ EvGetStable (baserepo st) :: evs /\
    fetched evs = seq 0 k /\
    (k <= List.length (pw st))%nat /\
    (fst (check_patchwork E st) = Ok tt -> k = List.length (pw st)) /\
    (forall e, fst (check_patchwork E st) = Raise e -> (0 < k)%nat) /\
    (fst (check_patchwork E st) = Ok tt ->
     batches E (String c s) 0 (pw st) (log (EvGetStable (baserepo st)) st)
             (snd (check_patchwork E st))) /\
    (forall e, fst (check_patchwork E st) = Raise e ->
       exists project st1,
         nth_error (pw st) (pred k) = Some project /\
         batches E (String c s) 0 (firstn (pred k) (pw st))
                 (log (EvGetStable (baserepo st)) st) st1 /\
         check_patchwork_project E (String c s) (pred k) project st1 =
           (Raise e, snd (check_patchwork E st))).
Proof.
  intros Hstable.
  unfold check_patchwork, bind, get, db_get_stable_m, call.
  rewrite Hstable.
  change (pw (log (EvGetStable (baserepo st)) st)) with (pw st).
  destruct (for_each_project_stops E (String c s) (pw st) 0
              (log (EvGetStable (baserepo st)) st))
    as (evs & k & Htr & Hf & Hk & Hok & Hraise & Hall & Hstop).
  exists evs, k. repeat split; auto.
  rewrite Htr. simpl. now rewrite <- app_assoc.
Qed.

(** X12.  A cycle of [check_patchwork], however it ends, leaves the
    entries that were in flight in place and only adds entries at the end:
    each is a patch series entry for a registered interface, there is one
    per build requested in the cycle, and the entries carry, in order, the
    build numbers the backend returned for these requests.  The list of
    interfaces is left as it is. *)
Theorem check_patchwork_appends (E : Env) (st : State) :
  let st' := snd (check_patchwork E st) in
  exists jobs,
    pj st' = pj st ++ jobs /\
    submitted st' = (submitted st + List.length jobs)%nat /\
    pw st' = pw st /\
    Forall (series_job (List.length (pw st))) jobs /\
    bids jobs = map (jk_build_id E)
                    (seq (submitted st) (List.length jobs)).
Proof.
  intros st'. subst st'.
  unfold check_patchwork, bind, get, db_get_stable_m, call, raise.
  assert (Hnone : exists jobs,
    pj (log (EvGetStable (baserepo st)) st) = pj st ++ jobs /\
    submitted (log (EvGetStable (baserepo st)) st) =
      (submitted st + List.length jobs)%nat /\
    pw (log (EvGetStable (baserepo st)) st) = pw st /\
    Forall (series_job (List.length (pw st))) jobs /\
    bids jobs = map (jk_build_id E)
                    (seq (submitted st) (List.length jobs))).
  { exists []. simpl. rewrite app_nil_r, Nat.add_0_r.
    repeat split; constructor. }
  destruct (db_get_stable E (baserepo st)) as [[|c s]|];
    try exact Hnone.
  change (pw (log (EvGetStable (baserepo st)) st)) with (pw st).
  exact (for_each_project_jobs E (String c s) (pw st) 0
           (log (EvGetStable (baserepo st)) st)).
Qed.

(** X13.  The build requests of one batch.  A batch that raises has
    requested no build; a batch that ends normally has requested one
    build per series, first for the series the filter found ready, in the
    order of the tracker, then for the series made of the pending patches
    older than 43200 seconds, each on the stable commit with the message
    id, subject, e-mail addresses and patch URLs of its series. *)
Theorem batch_build_requests (E : Env) (st : State) (stablecommit : string)
    (cpw : nat) (project : Project) (evs : list Event) :
  trace (snd (check_patchwork_project E stablecommit cpw project st)) =
    trace st ++ evs ->
  (forall e,
      fst (check_patchwork_project E stablecommit cpw project st) =
        Raise e ->
      build_requests evs = []) /\
  (forall ready dropped,
      fst (check_patchwork_project E stablecommit cpw project st) = Ok tt ->
      fst (filter_patchsets E (pw_get_new_patchsets E cpw) st) =
        Ok (ready, dropped) ->
      build_requests evs =
        map (series_build_args st stablecommit)
            (ready ++ retry_series E cpw project)).
Proof.
  intros Htr.
  destruct (check_patchwork_project_phases E stablecommit cpw project st)
    as (pre & Hpre & [[e Hr]|(ready' & dropped' & Hf' & _ & Hr)]).
  - rewrite Hr in Htr. simpl in Htr. apply app_inv_head in Htr. subst pre.
    split.
    + intros _ _. now apply build_requests_none.
    + intros ready dropped Hok. rewrite Hr in Hok. discriminate.
  - cbv zeta in Hr. rewrite Hr in Htr. simpl in Htr.
    apply app_inv_head in Htr. subst evs. split.
    + intros e He. rewrite Hr in He. discriminate.
    + intros ready dropped _ Hf. rewrite Hf in Hf'.
      injection Hf' as <- <-.
      rewrite build_requests_app, (build_requests_none pre Hpre).
      apply submit_events_build_requests.
Qed.

Lemma check_patchwork_polls_in_order_witness :
  db_get_stable second_fails_env (baserepo three_projects) =
    Some "c0ffee" /\
  List.length (pw three_projects) = 3%nat /\
  fst (check_patchwork second_fails_env three_projects) =
    Raise (FilterFailed
             (filter_cmd "/usr/bin/series-filter" series_101_102)) /\
  fetched (trace (snd (check_patchwork second_fails_env three_projects))) =
    [0%nat; 1%nat] /\
  exists evs k,
    trace (snd (check_patchwork second_fails_env three_projects)) =
      trace three_projects ++ EvGetStable (baserepo three_projects) :: evs /\
    fetched evs = seq 0 k /\
    (k <= List.length (pw three_projects))%nat /\
    (fst (check_patchwork second_fails_env three_projects) = Ok tt ->
     k = List.length (pw three_projects)) /\
    (forall e,
        fst (check_patchwork second_fails_env three_projects) = Raise e ->
        (0 < k)%nat) /\
    (fst (check_patchwork second_fails_env three_projects) = Ok tt ->
     batches second_fails_env "c0ffee" 0 (pw three_projects)
             (log (EvGetStable (baserepo three_projects)) three_projects)
             (snd (check_patchwork second_fails_env three_projects))) /\
    (forall e,
        fst (check_patchwork second_fails_env three_projects) = Raise e ->
        exists project st1,
          nth_error (pw three_projects) (pred k) = Some project /\
          batches second_fails_env "c0ffee" 0
                  (firstn (pred k) (pw three_projects))
                  (log (EvGetStable (baserepo three_projects))
                       three_projects) st1 /\
          check_patchwork_project second_fails_env "c0ffee" (pred k) project
                                  st1 =
            (Raise e,
             snd (check_patchwork second_fails_env three_projects))).
Proof.
  split; [reflexivity|]. split; [reflexivity|].
  split; [vm_compute; reflexivity|]. split; [vm_compute; reflexivity|].
  exact (check_patchwork_polls_in_order second_fails_env three_projects
           "c" "0ffee" eq_refl).
Defined.

Lemma batch_build_requests_witness :
  fst (check_patchwork_project sequential_env "c0ffee" 0 sample_project
                               sample_state) = Ok tt /\
  build_requests sample_batch =
    map (series_build_args sample_state "c0ffee")
        ([series_101_102] ++ retry_series sequential_env 0 sample_project).
Proof.
  assert (Hok : fst (check_patchwork_project sequential_env "c0ffee" 0
                       sample_project sample_state) = Ok tt)
    by (vm_compute; reflexivity).
  assert (Htrace :
    trace (snd (check_patchwork_project sequential_env "c0ffee" 0
                  sample_project sample_state)) =
    trace sample_state ++ sample_batch) by (vm_compute; reflexivity).
  assert (Hfilter :
    fst (filter_patchsets sequential_env
           (pw_get_new_patchsets sequential_env 0) sample_state) =
      Ok ([series_101_102], [series_103])) by (vm_compute; reflexivity).
  split; [exact Hok|].
  exact (proj2 (batch_build_requests sequential_env sample_state "c0ffee" 0
                  sample_project sample_batch Htrace)
               [series_101_102] [series_103] Hok Hfilter).
Defined.

(** ** The runs of the filter program *)

Lemma filter_loop_fatal_state (E : Env) (prog : string)
    (l1 l2 ready dropped : list SeriesSummary) (s : SeriesSummary)
    (st : State) :
  Forall (accepted E prog) l1 ->
  ~ accepted E prog s ->
  snd (filter_loop E prog (l1 ++ s :: l2) ready dropped st) =
    log_all (map (filter_event E prog) (l1 ++ [s])) st.
Proof.
  intros Hl Hs. revert ready dropped st.
  induction Hl as [|x l1 Hx _ IH]; intros ready dropped st; simpl.
  - unfold bind, subprocess_call_m, call, raise.
    fold (filter_status E prog s).
    destruct (Z.eqb_spec (filter_status E prog s) 0) as [H0|H0];
      [exfalso; apply Hs; now left|].
    destruct (Z.eqb_spec (filter_status E prog s) 1) as [H1|H1];
      [exfalso; apply Hs; now right|].
    destruct (filter_status E prog s =? 127)%Z; [reflexivity|].
    destruct (filter_status E prog s <? 0)%Z; reflexivity.
  - unfold bind, subprocess_call_m, call.
    fold (filter_status E prog x).
    change (filter_event E prog x)
      with (EvFilter (filter_argv prog x) (filter_status E prog x)).
    destruct Hx as [Hx|Hx]; rewrite Hx; simpl;
      now rewrite IH, log_is_log_all, log_all_app.
Qed.

(** X14.  With a filter program configured, [filter_patchsets] runs it
    once per series, in the order of the list, with the program path, the
    [--cover] option and the mbox URL of the cover letter when the series
    has one, and the mbox URLs of the patches as arguments; it runs it on
    no series after the first one whose status is neither 0 nor 1, and
    makes no other call. *)
Theorem filter_runs_in_order (E : Env) (st : State) (prog : string) :
  filter_program st = Some prog ->
  (forall s,
      filter_event E prog s =
        EvFilter (prog
                  :: match cover_letter s with
                     | Some mbox_url => ["--cover"; mbox_url]
                     | None => []
                     end
                  ++ patch_mbox_url_list s)
                 (filter_status E prog s)) /\
  (forall l, Forall (accepted E prog) l ->
     snd (filter_patchsets E l st) =
       log_all (map (filter_event E prog) l) st) /\
  (forall l1 s l2,
     Forall (accepted E prog) l1 ->
     ~ accepted E prog s ->
     snd (filter_patchsets E (l1 ++ s :: l2) st) =
       log_all (map (filter_event E prog) (l1 ++ [s])) st).
Proof.
  intros Hprog. split; [reflexivity|]. split.
  - intros l Hl. rewrite (filter_patchsets_some E prog l st Hprog).
    now rewrite filter_loop_partition.
  - intros l1 s l2 Hl1 Hs.
    rewrite (filter_patchsets_some E prog _ st Hprog).
    now apply filter_loop_fatal_state.
Qed.

Lemma filter_runs_in_order_witness :
  filter_program sample_state = Some "/usr/bin/series-filter" /\
  snd (filter_patchsets failing_filter_env
         ([series_103] ++ series_101_102 :: [series_103]) sample_state) =
    log_all (map (filter_event failing_filter_env "/usr/bin/series-filter")
                 ([series_103] ++ [series_101_102]))
            sample_state.
Proof.
  split; [reflexivity|].
  apply (proj2 (proj2 (filter_runs_in_order failing_filter_env sample_state
                         "/usr/bin/series-filter" eq_refl))).
  - apply Forall_cons; [right; reflexivity | apply Forall_nil].
  - intros [H|H]; discriminate.
Defined.

(** ** Registration leaves the rest alone *)

(** X15.  [add_pw] never touches the in-flight list or the store: it
    makes no call when a starting cursor is given, and only reads of the
    store otherwise.  When it ends normally it has added one interface at
    the end of [self.pw], of the variant asked for, with the base URL and
    project name given and, when a cursor was given, that cursor; the
    interfaces registered before keep their positions.  When it raises,
    [self.pw] is as before. *)
Theorem add_pw_frame (E : Env) (st : State) (baseurl pname : string)
    (lpatch : option Cursor) (restapi : bool) (apikey : option string)
    (skip : list string) :
  let r := add_pw E baseurl pname lpatch restapi apikey skip st in
  pj (snd r) = pj st /\
  submitted (snd r) = submitted st /\
  (exists evs,
      trace (snd r) = trace st ++ evs /\
      existsb is_store_mutation evs = false /\
      (lpatch <> None -> evs = [])) /\
  (fst r = Ok tt ->
   exists project,
     pw (snd r) = pw st ++ [project] /\
     pw_kind project =
       (if restapi then PatchworkV2Project else PatchworkV1Project) /\
     pw_baseurl project = baseurl /\
     pw_pname project = pname /\
     pw_skip project = skip /\
     (forall c, lpatch = Some c -> pw_cursor project = Some c)) /\
  (forall e, fst r = Raise e -> pw (snd r) = pw st).
Proof.
  intros r. subst r.
  unfold add_pw, bind, call, modify, raise, ret.
  destruct restapi, lpatch as [c|]; simpl.
  - repeat split; try discriminate.
    + exists []. rewrite app_nil_r. now repeat split.
    + intros _. eexists. repeat split. now intros ? [= ->].
  - destruct (py_max String.ltb _ _); simpl; repeat split;
      try discriminate;
      try (eexists [_; _]; rewrite <- app_assoc; repeat split;
           intros H; now elim H).
    intros _. eexists. repeat split. discriminate.
  - repeat split; try discriminate.
    + exists []. rewrite app_nil_r. now repeat split.
    + intros _. eexists. repeat split. now intros ? [= ->].
  - destruct (py_max Z_cursor_ltb _ _); simpl; repeat split;
      try discriminate;
      try (eexists [_; _]; rewrite <- app_assoc; repeat split;
           intros H; now elim H).
    intros _. eexists. repeat split. discriminate.
Qed.

(** ** Incomplete tracker records *)

(** X16.  For a URL the pattern accepts, resolved on a registered
    interface, the record is looked up once on the tracker under the patch
    id of the URL, and nothing else is called.  When the record is not a
    dict, when it has no date string, or, on the REST variant, no
    [project] dict, the resolution raises [AttributeError]; on the XMLRPC
    variant a record without [project_id] raises [TypeError]. *)
Theorem resolution_of_incomplete_record (E : Env) (st : State) (cpw : nat)
    (project : Project) (u base digits : string) :
  re_match_patch_url u = Some (base, digits) ->
  nth_error (pw st) cpw = Some project ->
  let patch_id := int_of_digits (list_ascii_of_string digits) in
  let patch := pw_get_patch_by_id E cpw patch_id in
  let r := get_patch_info_from_url E (Some cpw) u st in
  snd r = log (EvGetPatchById cpw patch_id) st /\
  ((forall d, patch <> PyDict d) -> fst r = Raise AttributeError) /\
  (forall d, patch = PyDict d ->
     (pw_kind project = PatchworkV1Project ->
      dict_get d "project_id" = PyNone -> fst r = Raise TypeError) /\
     (pw_kind project = PatchworkV2Project ->
      (forall p, dict_get d "project" <> PyDict p) ->
      fst r = Raise AttributeError) /\
     (forall project_id,
        patch_project_id (pw_kind project) patch = Ok project_id ->
        (forall date, dict_get d "date" <> PyStr date) ->
        fst r = Raise AttributeError)).
Proof.
  intros Hm Hp patch_id patch r. subst r.
  unfold get_patch_info_from_url. rewrite Hm.
  unfold bind, get, lift, ret, raise, pw_get_patch_by_id_m, call.
  rewrite Hp. fold patch_id. fold patch. split; [|split].
  - destruct (py_get patch "name"); [|reflexivity].
    destruct (patch_project_id (pw_kind project) patch); [|reflexivity].
    destruct (py_get patch "date") as [date|]; [|reflexivity].
    destruct (py_replace_space_T date); reflexivity.
  - intros Hnot. destruct patch as [| | |d]; try reflexivity.
    now elim (Hnot d).
  - intros d ->. cbn [py_get]. split; [|split].
    + intros Hk Hnone. rewrite Hk. cbn [patch_project_id py_get].
      now rewrite Hnone.
    + intros Hk Hnone. rewrite Hk. cbn [patch_project_id py_get].
      destruct (dict_get d "project") as [| | |p]; try reflexivity.
      now elim (Hnone p).
    + intros project_id Hpid Hdate. rewrite Hpid.
      destruct (dict_get d "date") as [| | |dd] eqn:Hd; try reflexivity.
      * now elim (Hdate s).
Qed.

Lemma resolution_of_incomplete_record_witness :
  re_match_patch_url "http://pw/patch/101" = Some ("http://pw", "101") /\
  nth_error (pw sample_state) 0 = Some sample_project /\
  get_patch_info_from_url undated_env (Some 0%nat) "http://pw/patch/101"
                          sample_state =
    (Raise AttributeError, log (EvGetPatchById 0 101) sample_state).
Proof.
  assert (Hm : re_match_patch_url "http://pw/patch/101" =
               Some ("http://pw", "101")) by (vm_compute; reflexivity).
  split; [exact Hm|]. split; [reflexivity|].
  destruct (resolution_of_incomplete_record undated_env sample_state 0
              sample_project "http://pw/patch/101" "http://pw" "101"
              Hm eq_refl) as (Hsnd & _ & Hrec).
  destruct (Hrec _ eq_refl) as (_ & _ & Hdate).
  specialize (Hdate 1%Z eq_refl).
  destruct (get_patch_info_from_url undated_env (Some 0%nat)
              "http://pw/patch/101" sample_state) as [r st'].
  simpl in Hsnd, Hdate. rewrite Hsnd, Hdate; [reflexivity|].
  intros date. discriminate.
Defined.

(** ** What a pass changes *)

Lemma mutations_app (a b : list Event) :
  mutations (a ++ b) = (mutations a + mutations b)%nat.
Proof. unfold mutations. now rewrite filter_app, length_app. Qed.

Lemma mutations_lookups (evs : list Event) :
  forallb is_get_patch evs = true -> mutations evs = 0%nat.
Proof.
  unfold mutations. induction evs as [|e evs IH]; simpl; [reflexivity|].
  intros H. apply andb_true_iff in H. destruct H as [He H].
  destruct e; try discriminate. simpl. now apply IH.
Qed.

Lemma build_requests_quiet (evs : list Event) :
  forallb is_quiet evs = true -> build_requests evs = [].
Proof.
  induction evs as [|e evs IH]; simpl; [reflexivity|].
  intros H. apply andb_true_iff in H. destruct H as [He H].
  rewrite (IH H). now destruct e.
Qed.

Section PassEffects.

Variable E : Env.

(** The merge of one result changes the store at most once. *)
Lemma merge_result_mutations (job : Job) (bres : TestResult)
    (basehash basedate : string) (st : State) :
  exists evs,
    snd (merge_result E job bres basehash basedate st) = log_all evs st /\
    forallb is_quiet evs = true /\
    (mutations evs <= 1)%nat.
Proof.
  assert (Hquiet : forall evs, forallb is_get_patch evs = true ->
                               forallb is_quiet evs = true).
  { intros evs H. apply forallb_forall. intros e He.
    rewrite forallb_forall in H. specialize (H e He). now destruct e. }
  assert (Hgoal : exists evs,
    snd (match job_type job with
         | BASELINE =>
             bind (get baserepo)
                  (fun repo => db_update_baseline_m repo basehash
                                 basedate bres (build_id job))
         | PATCHWORK =>
             bind (jk_get_patch_url_list_m E (build_id job))
                  (fun urls =>
                     bind (map_m (get_patch_info_from_url E (job_pw job))
                                 urls)
                          (fun patches => db_commit_tested_m patches))
         | OtherJob n => raise (UnknownJobType n)
         end st) = log_all evs st /\
    forallb is_quiet evs = true /\
    (mutations evs <= 1)%nat).
  { destruct (job_type job).
    - eexists [_]. repeat split. unfold mutations. simpl. lia.
    - unfold bind, jk_get_patch_url_list_m, call.
      destruct (map_m_patch_info E (job_pw job)
                  (jk_get_patch_url_list E (build_id job))
                  (log (EvGetPatchUrlList (build_id job)) st))
        as (evs & Hsnd & Hev & _).
      destruct (map_m (get_patch_info_from_url E (job_pw job))
                  (jk_get_patch_url_list E (build_id job))
                  (log (EvGetPatchUrlList (build_id job)) st))
        as [[patches|e] st1]; simpl in Hsnd; subst st1.
      + exists (EvGetPatchUrlList (build_id job)
                :: evs ++ [EvCommitTested patches]).
        unfold db_commit_tested_m, call. simpl.
        rewrite !log_is_log_all, !log_all_app. split; [reflexivity|].
        split.
        * simpl. rewrite forallb_app, (Hquiet evs Hev). reflexivity.
        * change (EvGetPatchUrlList (build_id job)
                  :: evs ++ [EvCommitTested patches])
            with ([EvGetPatchUrlList (build_id job)]
                  ++ evs ++ [EvCommitTested patches]).
          rewrite !mutations_app, (mutations_lookups evs Hev).
          unfold mutations. simpl. lia.
      + exists (EvGetPatchUrlList (build_id job) :: evs). simpl.
        rewrite !log_is_log_all, !log_all_app. split; [reflexivity|].
        split; [simpl; now apply Hquiet|].
        change (EvGetPatchUrlList (build_id job) :: evs)
          with ([EvGetPatchUrlList (build_id job)] ++ evs).
        rewrite mutations_app, (mutations_lookups evs Hev).
        unfold mutations. simpl. lia.
    - exists []. simpl. rewrite log_all_nil. repeat split.
      unfold mutations. simpl. lia. }
  unfold merge_result. destruct bres; try exact Hgoal.
  exists []. simpl. rewrite log_all_nil. repeat split.
  unfold mutations. simpl. lia.
Qed.

Lemma check_pending_body_effects (job : Job) (st : State) :
  In job (pj st) ->
  let st' := snd (check_pending_body E job st) in
  submitted st' = submitted st /\
  pw st' = pw st /\
  (forall j, In j (pj st') -> In j (pj st)) /\
  exists evs,
    trace st' = trace st ++ evs /\
    build_requests evs = [] /\
    (mutations evs + List.length (pj st') <= List.length (pj st))%nat.
Proof.
  intros Hin st'. subst st'.
  destruct (jk_is_build_complete E (build_id job)) eqn:Hc.
  - destruct (list_remove_in job (pj st) Hin) as [l Hl].
    rewrite (check_pending_body_complete E job l st Hc Hl).
    destruct (merge_result_mutations job (jk_get_result E (build_id job))
                (jk_get_base_hash E (build_id job))
                (jk_get_base_commitdate E (build_id job))
                (reaped_state job l st)) as (evs & -> & Hq & Hm).
    simpl. repeat split.
    + intros j Hj. exact (list_remove_subset job j (pj st) l Hl Hj).
    + eexists. split; [rewrite <- app_assoc; reflexivity|]. split.
      * rewrite build_requests_app, (build_requests_quiet evs Hq).
        reflexivity.
      * rewrite mutations_app. apply list_remove_length in Hl.
        unfold mutations at 1. simpl. lia.
  - unfold check_pending_body, bind, jk_is_build_complete_m, call.
    rewrite Hc. simpl. repeat split; auto.
    eexists. split; [reflexivity|]. split; [reflexivity|].
    unfold mutations. simpl. lia.
Qed.

Lemma check_pending_loop_effects (fuel : nat) :
  forall (i : nat) (st st' : State) (r : Res unit),
    check_pending_loop E fuel i st = Some (r, st') ->
    submitted st' = submitted st /\
    pw st' = pw st /\
    (forall j, In j (pj st') -> In j (pj st)) /\
    exists evs,
      trace st' = trace st ++ evs /\
      build_requests evs = [] /\
      (mutations evs + List.length (pj st') <= List.length (pj st))%nat.
Proof.
  assert (Hrefl : forall st : State,
    submitted st = submitted st /\
    pw st = pw st /\
    (forall j, In j (pj st) -> In j (pj st)) /\
    exists evs,
      trace st = trace st ++ evs /\
      build_requests evs = [] /\
      (mutations evs + List.length (pj st) <= List.length (pj st))%nat).
  { intros st. repeat split; auto. exists []. rewrite app_nil_r.
    repeat split. unfold mutations. simpl. lia. }
  induction fuel as [|fuel IH]; intros i st st' r; simpl.
  - destruct (nth_error (pj st) i); [discriminate|].
    intros [= _ <-]. apply Hrefl.
  - destruct (nth_error (pj st) i) as [job|] eqn:Hn;
      [|intros [= _ <-]; apply Hrefl].
    pose proof (check_pending_body_effects job st (nth_error_In _ _ Hn))
      as Hb. cbv zeta in Hb.
    destruct (check_pending_body E job st) as [[[]|e] st1]; simpl in Hb.
    + intros Hloop. apply IH in Hloop.
      destruct Hb as (Hs1 & Hp1 & Hin1 & evs1 & Ht1 & Hb1 & Hm1).
      destruct Hloop as (Hs2 & Hp2 & Hin2 & evs2 & Ht2 & Hb2 & Hm2).
      repeat split; try congruence; auto.
      exists (evs1 ++ evs2). repeat split.
      * now rewrite Ht2, Ht1, app_assoc.
      * now rewrite build_requests_app, Hb1, Hb2.
      * rewrite mutations_app. lia.
    + intros [= _ <-]. exact Hb.
Qed.

End PassEffects.

(** X17.  A pass of [check_pending], however it ends, requests no build,
    adds no entry to the in-flight list and leaves the list of interfaces
    alone; and it changes the store at most once for each entry it
    removes: the number of calls that change the store is at most the
    number of entries the in-flight list has lost. *)
Theorem check_pending_effects (E : Env) (st st' : State) (r : Res unit) :
  check_pending E st = Some (r, st') ->
  submitted st' = submitted st /\
  pw st' = pw st /\
  (forall job, In job (pj st') -> In job (pj st)) /\
  exists evs,
    trace st' = trace st ++ evs /\
    build_requests evs = [] /\
    (mutations evs + List.length (pj st') <= List.length (pj st))%nat.
Proof.
  intros Hpass. unfold check_pending in Hpass.
  exact (check_pending_loop_effects E _ 0 st st' r Hpass).
Qed.

Lemma check_pending_effects_witness :
  exists evs,
    trace (after_pass sequential_env (two_baselines sequential_env)) =
      trace (two_baselines sequential_env) ++ evs /\
    build_requests evs = [] /\
    (mutations evs
     + List.length (pj (after_pass sequential_env
                                   (two_baselines sequential_env)))
     <= List.length (pj (two_baselines sequential_env)))%nat.
Proof.
  assert (Hpass :
    check_pending sequential_env (two_baselines sequential_env) =
      Some (Ok tt,
            after_pass sequential_env (two_baselines sequential_env)))
    by (vm_compute; reflexivity).
  exact (proj2 (proj2 (proj2 (check_pending_effects sequential_env
                                (two_baselines sequential_env) _ _
                                Hpass)))).
Defined.
